(** * BUILD-file defaults: [pants.engine.internals.defaults]

    A shallow embedding of [BuildFileDefaultsParserState] (the state behind the
    [__defaults__] BUILD file symbol) and the properties of [set_defaults],
    [_process_defaults] and [get_frozen_defaults].

    Python dictionaries are insertion ordered and the order is observable here
    (which exception is raised first, which entry of a comprehension wins), so
    a [dict] is an association list; methods that mutate [self] live in a small
    state-and-exception monad. *)

From Stdlib Require Import String List Bool Sorted.
Import ListNotations.
Local Open Scope string_scope.
Local Open Scope list_scope.

(** ** Python dictionaries with [str] keys *)

Module PyDict.

Definition dict (V : Type) : Type := list (string * V).

Section Ops.
Context {V : Type}.

(** [d.get(k)] *)
Fixpoint get (d : dict V) (k : string) : option V :=
  match d with
  | [] => None
  | (k', v) :: d' => if String.eqb k k' then Some v else get d' k
  end.

(** [d[k] = v]: an existing key keeps its position, a new key goes last. *)
Fixpoint set (d : dict V) (k : string) (v : V) : dict V :=
  match d with
  | [] => [(k, v)]
  | (k', v') :: d' =>
      if String.eqb k k' then (k', v) :: d' else (k', v') :: set d' k v
  end.

(** [d.pop(k, None)] and [del d[k]] for a key that is present. *)
Fixpoint pop (d : dict V) (k : string) : dict V :=
  match d with
  | [] => []
  | (k', v') :: d' =>
      if String.eqb k k' then pop d' k else (k', v') :: pop d' k
  end.

(** [d.update(u)] *)
Definition update (d u : dict V) : dict V :=
  fold_left (fun acc kv => set acc (fst kv) (snd kv)) u d.

(** [d.keys()] *)
Definition keys (d : dict V) : list string := map fst d.

(** [not d] *)
Definition is_empty (d : dict V) : bool :=
  match d with [] => true | _ :: _ => false end.

(** The binding that a sequence of assignments leaves for [k]: the last one. *)
Fixpoint last_binding (u : dict V) (k : string) : option V :=
  match u with
  | [] => None
  | (k', v) :: u' =>
      match last_binding u' k with
      | Some w => Some w
      | None => if String.eqb k k' then Some v else None
      end
  end.

End Ops.

End PyDict.

Import PyDict.

(** [x in xs] for strings. *)
Definition mem (x : string) (xs : list string) : bool :=
  existsb (String.eqb x) xs.

(** [sorted(set(xs))]: strings in code point order, without repetition. *)
Fixpoint insert_sorted (x : string) (xs : list string) : list string :=
  match xs with
  | [] => [x]
  | y :: ys =>
      match String.compare x y with
      | Lt => x :: y :: ys
      | Eq => y :: ys
      | Gt => y :: insert_sorted x ys
      end
  end.

Definition sorted_set (xs : list string) : list string :=
  fold_right insert_sorted [] xs.

(** [a < b] on [str]. *)
Definition str_lt (a b : string) : Prop := String.compare a b = Lt.

(** [sep.join(xs)] *)
Definition join (sep : string) (xs : list string) : string :=
  String.concat sep xs.

(** ** Exceptions and the two monads *)

Inductive exception : Type :=
| ValueError (msg : string)
| InvalidFieldException (msg : string)
| KeyError (key : string).

(** A computation that returns or raises. *)
Definition result (A : Type) : Type := (exception + A)%type.

Definition rret {A} (a : A) : result A := inr a.
Definition rraise {A} (e : exception) : result A := inl e.
Definition rbind {A B} (m : result A) (f : A -> result B) : result B :=
  match m with
  | inl e => inl e
  | inr a => f a
  end.

(** A [for] loop that threads an accumulator and stops at the first raise. *)
Fixpoint rfold {A B} (f : A -> B -> result A) (xs : list B) (a : A) : result A :=
  match xs with
  | [] => rret a
  | x :: xs' => rbind (f a x) (rfold f xs')
  end.

(** A comprehension whose element expression may raise. *)
Fixpoint rmap {A B} (f : A -> result B) (xs : list A) : result (list B) :=
  match xs with
  | [] => rret []
  | x :: xs' => rbind (f x) (fun y => rbind (rmap f xs') (fun ys => rret (y :: ys)))
  end.

(** A method of an object of type [S]: it may mutate the object and may raise;
    what was mutated before a raise stays mutated. *)
Definition M (S A : Type) : Type := S -> result A * S.

Definition ret {S A} (a : A) : M S A := fun s => (inr a, s).
Definition bind {S A B} (m : M S A) (f : A -> M S B) : M S B :=
  fun s => match m s with
           | (inl e, s') => (inl e, s')
           | (inr a, s') => f a s'
           end.
Definition read {S} : M S S := fun s => (inr s, s).
Definition modify {S} (f : S -> S) : M S unit := fun s => (inr tt, f s).
Definition lift {S A} (r : result A) : M S A := fun s => (r, s).

(** A [for] loop executed for its effect on the object. *)
Fixpoint for_each {S B} (f : B -> M S unit) (xs : list B) : M S unit :=
  match xs with
  | [] => ret tt
  | x :: xs' => bind (f x) (fun _ => for_each f xs')
  end.

Declare Scope py_scope.
Delimit Scope py_scope with py.
Notation "x <- m ;; k" := (bind m (fun x => k))
  (at level 61, m at next level, right associativity) : py_scope.
Notation "m ;;; k" := (bind m (fun _ => k))
  (at level 61, right associativity) : py_scope.
Notation "x <~ m ;; k" := (rbind m (fun x => k))
  (at level 61, m at next level, right associativity) : py_scope.

(** ** What the engine takes from the rest of Pants

    [pants.engine.addresses.Address], the values of BUILD files and their
    [repr] are not part of this module; the embedding is parametric in them. *)

Class Runtime : Type := {
  (** Python values found in BUILD files ([typing.Any]). *)
  Any : Type;
  (** [repr(x)] *)
  repr : Any -> string;
  (** [type(x).__name__] *)
  type_name : Any -> string;
  (** [str(t)] for a tuple of strings [t] *)
  tuple_str : list string -> string;
  Address : Type;
  (** [Address(path, generated_name=name)] *)
  make_address : string -> string -> Address;
  (** [str(address)] *)
  address_str : Address -> string;
  UnionMembership : Type
}.

Section Model.
Context {R : Runtime}.

(** [ImmutableValue]: what [compute_value] returns is again a Python value. *)
Definition ImmutableValue : Type := Any.

(** A field class, as far as the defaults look at it. *)
Record FieldType : Type := {
  field_alias : string;
  deprecated_alias : option string;
  compute_value : Any -> Address -> result ImmutableValue
}.

(** A target class, as far as the defaults look at it. *)
Record TargetType : Type := {
  alias : string;
  class_field_types : UnionMembership -> list FieldType;
  _get_field_aliases_to_field_types : list FieldType -> dict FieldType
}.

Record RegisteredTargetTypes : Type := {
  aliases_to_types : dict TargetType
}.

(** Modelled from the spec: the property [RegisteredTargetTypes.aliases],
    "the full alias list" of the kinds known to the registry. *)
Definition aliases (r : RegisteredTargetTypes) : list string :=
  keys (aliases_to_types r).

(** [SetDefaultsKeyT = Union[str, Tuple[str, ...]]] *)
Inductive SetDefaultsKeyT : Type :=
| KStr (s : string)
| KTuple (t : list string).

(** A value of which the code asks [isinstance(x, dict)]. *)
Inductive dict_or (K V : Type) : Type :=
| IsDict (items : list (K * V))
| NotDict (o : Any).
Arguments IsDict {K V} items.
Arguments NotDict {K V} o.

(** [SetDefaultsValueT = Mapping[str, Any]], as annotated; anything at run time. *)
Definition SetDefaultsValueT : Type := dict_or string Any.
(** [SetDefaultsT = Mapping[SetDefaultsKeyT, SetDefaultsValueT]] *)
Definition SetDefaultsT : Type := dict_or SetDefaultsKeyT SetDefaultsValueT.

(** [BuildFileDefaults(FrozenDict[str, FrozenDict[str, ImmutableValue]])] *)
Definition BuildFileDefaults : Type := dict (dict ImmutableValue).

Record BuildFileDefaultsParserState : Type := {
  address : Address;
  defaults : dict (dict Any);
  registered_target_types : RegisteredTargetTypes;
  union_membership : UnionMembership
}.

Definition with_defaults (self : BuildFileDefaultsParserState)
    (d : dict (dict Any)) : BuildFileDefaultsParserState :=
  {| address := address self;
     defaults := d;
     registered_target_types := registered_target_types self;
     union_membership := union_membership self |}.

(** [BuildFileDefaultsParserState.create] *)
Definition create (path : string) (parent : BuildFileDefaults)
    (rtt : RegisteredTargetTypes) (um : UnionMembership)
    : BuildFileDefaultsParserState :=
  {| address := make_address path "__defaults__";
     defaults := map (fun kv => (fst kv, snd kv)) parent;
     registered_target_types := rtt;
     union_membership := um |}.

(** [field_alias in (field_type.alias, field_type.deprecated_alias)] *)
Definition names_field (field_type : FieldType) (fa : string) : bool :=
  String.eqb fa (field_alias field_type)
  || match deprecated_alias field_type with
     | Some d => String.eqb fa d
     | None => false
     end.

(** One pair (stored default, field type) of the comprehension in
    [get_frozen_defaults]: when the stored alias names the field type, its
    coerced value goes under the field type's alias. *)
Definition emit (self : BuildFileDefaultsParserState) (item : string * Any)
    (acc : dict ImmutableValue) (field_type : FieldType)
    : result (dict ImmutableValue) :=
  if names_field field_type (fst item) then
    rbind (compute_value field_type (snd item) (address self))
          (fun v => rret (set acc (field_alias field_type) v))
  else rret acc.

(** The two inner [for] clauses of that comprehension, for one target
    alias: [types[target_alias]] is evaluated once per item of [fields]. *)
Definition frozen_fields (self : BuildFileDefaultsParserState)
    (target_alias : string) (fields : dict Any) : result (dict ImmutableValue) :=
  let types := aliases_to_types (registered_target_types self) in
  rfold
    (fun acc item =>
       match get types target_alias with
       | None => rraise (KeyError target_alias)
       | Some target_type =>
           rfold (emit self item)
                 (class_field_types target_type (union_membership self)) acc
       end)
    fields [].

(** [BuildFileDefaultsParserState.get_frozen_defaults] *)
Definition get_frozen_defaults : M BuildFileDefaultsParserState BuildFileDefaults :=
  (self <- read ;;
   lift (rmap
           (fun item =>
              rbind (frozen_fields self (fst item) (snd item))
                    (fun fields => rret (fst item, fields)))
           (defaults self)))%py.

(** [d.get(k, {})] *)
Definition or_empty (o : option (dict Any)) : dict Any :=
  match o with Some m => m | None => [] end.

(** [self.defaults.get(target_alias, {})] *)
Definition defaults_for (self : BuildFileDefaultsParserState)
    (target_alias : string) : dict Any :=
  or_empty (get (defaults self) target_alias).

(** [BuildFileDefaultsParserState.get] *)
Definition get_defaults (target_alias : string)
    : M BuildFileDefaultsParserState (dict Any) :=
  (self <- read ;; ret (defaults_for self target_alias))%py.

(** [str(target)] for a key of a directive. *)
Definition key_str (target : SetDefaultsKeyT) : string :=
  match target with
  | KStr s => s
  | KTuple t => tuple_str t
  end.

(** [target if isinstance(target, tuple) else (target,)] *)
Definition key_targets (target : SetDefaultsKeyT) : list string :=
  match target with
  | KStr s => [s]
  | KTuple t => t
  end.

(** [set(target_type._get_field_aliases_to_field_types(...).keys())] *)
Definition valid_field_aliases_of (self : BuildFileDefaultsParserState)
    (target_type : TargetType) : list string :=
  keys (_get_field_aliases_to_field_types target_type
          (class_field_types target_type (union_membership self))).

Definition unrecognized_field_msg (fa : string) (target_type : TargetType)
    (valid_field_aliases : list string) : string :=
  "Unrecognized field `" ++ fa ++ "` for target " ++ alias target_type ++ ". "
  ++ "Valid fields are: " ++ join ", " (sorted_set valid_field_aliases) ++ ".".

Definition unrecognized_target_msg (self : BuildFileDefaultsParserState)
    (target_alias : string) : string :=
  "Unrecognized target type " ++ target_alias ++ " in "
  ++ address_str (address self) ++ ".".

Definition invalid_values_msg (self : BuildFileDefaultsParserState)
    (target : SetDefaultsKeyT) (o : Any) : string :=
  "Invalid default field values in " ++ address_str (address self)
  ++ " for target type " ++ key_str target ++ ", "
  ++ "must be an `dict` but was " ++ repr o ++ " with type `" ++ type_name o ++ "`.".

Definition expected_dict_msg (self : BuildFileDefaultsParserState) (o : Any) : string :=
  "Expected dictionary mapping targets to default field values for "
  ++ address_str (address self) ++ " but got: " ++ type_name o ++ ".".

(** The loop [for field_alias in default.keys()] of [_process_defaults]:
    [raw_values] starts as [default] and loses the unknown fields when they
    are ignored. *)
Definition check_fields (target_type : TargetType)
    (valid_field_aliases : list string) (ignore_unknown_fields : bool)
    (default : dict Any) : result (dict Any) :=
  rfold
    (fun raw_values fa =>
       if negb (mem fa valid_field_aliases) then
         if ignore_unknown_fields then rret (pop raw_values fa)
         else rraise (InvalidFieldException
                        (unrecognized_field_msg fa target_type valid_field_aliases))
       else rret raw_values)
    (keys default) default.

(** [defaults.setdefault(k, {}).update(raw_values)] *)
Definition setdefault_update (defaults : dict (dict Any)) (k : string)
    (raw_values : dict Any) : dict (dict Any) :=
  match get defaults k with
  | Some fields => set defaults k (update fields raw_values)
  | None => set defaults k (update [] raw_values)
  end.

(** The body of [for target_alias in map(str, targets)]. *)
Definition process_target_alias (self : BuildFileDefaultsParserState)
    (default : dict Any) (ignore_unknown_fields : bool)
    (defaults : dict (dict Any)) (target_alias : string)
    : result (dict (dict Any)) :=
  let types := aliases_to_types (registered_target_types self) in
  match get types target_alias with
  | None => rraise (ValueError (unrecognized_target_msg self target_alias))
  | Some target_type =>
      (raw_values <~ check_fields target_type
                       (valid_field_aliases_of self target_type)
                       ignore_unknown_fields default ;;
       rret (setdefault_update defaults (alias target_type) raw_values))%py
  end.

(** The body of [for target, default in targets_defaults.items()]. *)
Definition process_item (self : BuildFileDefaultsParserState)
    (ignore_unknown_fields : bool) (defaults : dict (dict Any))
    (item : SetDefaultsKeyT * SetDefaultsValueT) : result (dict (dict Any)) :=
  match snd item with
  | NotDict o => rraise (ValueError (invalid_values_msg self (fst item) o))
  | IsDict default =>
      rfold (process_target_alias self default ignore_unknown_fields)
            (key_targets (fst item)) defaults
  end.

(** [BuildFileDefaultsParserState._process_defaults].  The dictionary
    [defaults] it updates in place is local to one [set_defaults] call and
    shares nothing with [self.defaults], so it is passed and returned. *)
Definition _process_defaults (self : BuildFileDefaultsParserState)
    (defaults : dict (dict Any)) (targets_defaults : SetDefaultsT)
    (ignore_unknown_fields : bool) : result (dict (dict Any)) :=
  match targets_defaults with
  | NotDict o => rraise (ValueError (expected_dict_msg self o))
  | IsDict items => rfold (process_item self ignore_unknown_fields) items defaults
  end.

(** The last loop of [set_defaults], one iteration. *)
Definition store_default (item : string * dict Any)
    : M BuildFileDefaultsParserState unit :=
  if is_empty (snd item) then
    modify (fun self => with_defaults self (pop (defaults self) (fst item)))
  else
    modify (fun self => with_defaults self (set (defaults self) (fst item) (snd item))).

(** [BuildFileDefaultsParserState.set_defaults]: the positional [args], the
    keywords [all] (default [None]) and [extend] (default [False]), and the
    remaining keywords [kwargs]. *)
Definition set_defaults (args : list SetDefaultsT) (all : option SetDefaultsValueT)
    (extend : bool) (kwargs : dict Any) : M BuildFileDefaultsParserState unit :=
  (self <- read ;;
   let defaults0 : dict (dict Any) :=
     if negb extend then []
     else map (fun kv => (fst kv, snd kv)) (defaults self) in
   defaults1 <- lift (match all with
                      | Some a =>
                          _process_defaults self defaults0
                            (IsDict [(KTuple (aliases (registered_target_types self)), a)])
                            true
                      | None => rret defaults0
                      end) ;;
   defaults2 <- lift (rfold (fun d arg => _process_defaults self d arg false)
                            args defaults1) ;;
   for_each store_default defaults2)%py.

(** *** The two halves of [set_defaults]

    The dictionary [defaults] as it stands when the last loop starts, and
    what the last loop makes of [self.defaults]. *)

Definition call_defaults (self : BuildFileDefaultsParserState)
    (args : list SetDefaultsT) (all : option SetDefaultsValueT) (extend : bool)
    : result (dict (dict Any)) :=
  let defaults0 : dict (dict Any) :=
    if negb extend then []
    else map (fun kv => (fst kv, snd kv)) (defaults self) in
  (defaults1 <~ match all with
                | Some a =>
                    _process_defaults self defaults0
                      (IsDict [(KTuple (aliases (registered_target_types self)), a)])
                      true
                | None => rret defaults0
                end ;;
   rfold (fun d arg => _process_defaults self d arg false) args defaults1)%py.

Definition store_all (new_defaults working : dict (dict Any)) : dict (dict Any) :=
  fold_left
    (fun acc item =>
       if is_empty (snd item) then pop acc (fst item)
       else set acc (fst item) (snd item))
    new_defaults working.

(** *** The call as the specification reads it

    A call is a sequence of merges, each giving a field mapping to one kind:
    the [all] mapping once for every alias of the registry, restricted to the
    fields the kind has, and then the explicit directives in the order
    written.  Later merges win field by field. *)

Definition restrict_to (valid_field_aliases : list string) (fields : dict Any)
    : dict Any :=
  filter (fun kv => mem (fst kv) valid_field_aliases) fields.

Definition merges_of_alias (self : BuildFileDefaultsParserState) (wildcard : bool)
    (fields : dict Any) (target_alias : string) : list (string * dict Any) :=
  match get (aliases_to_types (registered_target_types self)) target_alias with
  | None => []
  | Some target_type =>
      [(alias target_type,
        if wildcard
        then restrict_to (valid_field_aliases_of self target_type) fields
        else fields)]
  end.

Definition merges_of_item (self : BuildFileDefaultsParserState) (wildcard : bool)
    (item : SetDefaultsKeyT * SetDefaultsValueT) : list (string * dict Any) :=
  match snd item with
  | NotDict _ => []
  | IsDict fields =>
      flat_map (merges_of_alias self wildcard fields) (key_targets (fst item))
  end.

Definition merges_of_directive (self : BuildFileDefaultsParserState)
    (wildcard : bool) (directive : SetDefaultsT) : list (string * dict Any) :=
  match directive with
  | NotDict _ => []
  | IsDict items => flat_map (merges_of_item self wildcard) items
  end.

Definition all_merges (self : BuildFileDefaultsParserState)
    (all : option SetDefaultsValueT) : list (string * dict Any) :=
  match all with
  | Some a =>
      merges_of_directive self true
        (IsDict [(KTuple (aliases (registered_target_types self)), a)])
  | None => []
  end.

Definition explicit_merges (self : BuildFileDefaultsParserState)
    (args : list SetDefaultsT) : list (string * dict Any) :=
  flat_map (merges_of_directive self false) args.

Definition call_merges (self : BuildFileDefaultsParserState)
    (args : list SetDefaultsT) (all : option SetDefaultsValueT)
    : list (string * dict Any) :=
  all_merges self all ++ explicit_merges self args.

(** The kinds a sequence of merges names. *)
Definition named_kinds (merges : list (string * dict Any)) : list string :=
  map fst merges.

(** The field assignments a sequence of merges gives to one kind, in order. *)
Definition given_fields (merges : list (string * dict Any)) (kind : string)
    : dict Any :=
  flat_map (fun m => if String.eqb kind (fst m) then snd m else []) merges.

(** The field mapping those assignments amount to. *)
Definition given_mapping (merges : list (string * dict Any)) (kind : string)
    : dict Any :=
  update [] (given_fields merges kind).

Definition apply_merges (merges : list (string * dict Any))
    (defaults : dict (dict Any)) : dict (dict Any) :=
  fold_left (fun d m => setdefault_update d (fst m) (snd m)) merges defaults.

(** No target type registered for [kind] has the field [fa]. *)
Definition kind_lacks (self : BuildFileDefaultsParserState) (kind fa : string) : Prop :=
  forall target_alias target_type,
    In (target_alias, target_type) (aliases_to_types (registered_target_types self)) ->
    alias target_type = kind ->
    mem fa (valid_field_aliases_of self target_type) = false.

(** The value [v] is what some stored default of [fields] gives, coerced by
    a field type of [field_types] that it names and whose alias is [a]. *)
Definition emitted (self : BuildFileDefaultsParserState)
    (field_types : list FieldType) (fields : dict Any) (a : string)
    (v : ImmutableValue) : Prop :=
  exists fa raw field_type,
    In (fa, raw) fields
    /\ In field_type field_types
    /\ names_field field_type fa = true
    /\ field_alias field_type = a
    /\ compute_value field_type raw (address self) = inr v.

(** A merge that gives a registered kind only fields it has. *)
Definition merge_valid (self : BuildFileDefaultsParserState)
    (m : string * dict Any) : Prop :=
  exists target_alias target_type,
    In (target_alias, target_type) (aliases_to_types (registered_target_types self))
    /\ alias target_type = fst m
    /\ forall fa, In fa (keys (snd m)) ->
                  mem fa (valid_field_aliases_of self target_type) = true.

(** [self.defaults] has distinct keys, as a Python dictionary has. *)
Definition well_formed (self : BuildFileDefaultsParserState) : Prop :=
  NoDup (keys (defaults self)).

End Model.

Arguments IsDict {R K V} items.
Arguments NotDict {R K V} o.

(** ** A call read without running it *)

Section Validity.
Context {R : Runtime}.

(** Whether a computation returned. *)
Definition returned {A} (r : result A) : bool :=
  match r with inr _ => true | inl _ => false end.

(** What is seen of a computation when its value is dropped: that it
    returned, or the exception. *)
Definition outcome {A} (r : result A) : result unit :=
  match r with inl e => inl e | inr _ => inr tt end.

(** The alias is registered and the target type has every field of [fields]. *)
Definition alias_valid (self : BuildFileDefaultsParserState) (fields : dict Any)
    (target_alias : string) : bool :=
  match get (aliases_to_types (registered_target_types self)) target_alias with
  | None => false
  | Some target_type =>
      forallb (fun fa => mem fa (valid_field_aliases_of self target_type))
              (keys fields)
  end.

Definition item_valid (self : BuildFileDefaultsParserState)
    (item : SetDefaultsKeyT * SetDefaultsValueT) : bool :=
  match snd item with
  | NotDict _ => false
  | IsDict fields => forallb (alias_valid self fields) (key_targets (fst item))
  end.

Definition directive_valid (self : BuildFileDefaultsParserState)
    (directive : SetDefaultsT) : bool :=
  match directive with
  | NotDict _ => false
  | IsDict items => forallb (item_valid self) items
  end.

Definition all_is_mapping (all : option SetDefaultsValueT) : bool :=
  match all with
  | Some (NotDict _) => false
  | _ => true
  end.

Definition call_valid (self : BuildFileDefaultsParserState)
    (args : list SetDefaultsT) (all : option SetDefaultsValueT) : bool :=
  all_is_mapping all && forallb (directive_valid self) args.

(** The items a call goes through: the [all] mapping under the tuple of all
    registered aliases, then the items of the positional directives. *)
Definition call_items (self : BuildFileDefaultsParserState)
    (args : list SetDefaultsT) (all : option SetDefaultsValueT)
    : list (SetDefaultsKeyT * SetDefaultsValueT) :=
  match all with
  | Some a => [(KTuple (aliases (registered_target_types self)), a)]
  | None => []
  end
  ++ flat_map (fun directive =>
                 match directive with
                 | IsDict items => items
                 | NotDict _ => []
                 end) args.

End Validity.

(** ** A stored default that names one field type *)

Section Sole.
Context {R : Runtime}.

(** Among [field_types] exactly one, at one position, is named by the stored
    alias [fa]; its alias is [a] and it coerces [raw] to [v]. *)
Definition sole_coercion (self : BuildFileDefaultsParserState)
    (field_types : list FieldType) (fa : string) (raw : Any)
    (a : string) (v : ImmutableValue) : Prop :=
  exists before field_type after,
    field_types = before ++ field_type :: after
    /\ (forall other, In other (before ++ after) -> names_field other fa = false)
    /\ names_field field_type fa = true
    /\ field_alias field_type = a
    /\ compute_value field_type raw (address self) = inr v.

End Sole.

(** ** What the working defaults hold *)

Section Stored.
Context {R : Runtime}.

(** Every field stored for a kind is a field of a registered target type
    with that alias. *)
Definition stored_valid (self : BuildFileDefaultsParserState) : Prop :=
  forall kind fields fa,
    get (defaults self) kind = Some fields ->
    In fa (keys fields) ->
    exists target_alias target_type,
      In (target_alias, target_type) (aliases_to_types (registered_target_types self))
      /\ alias target_type = kind
      /\ mem fa (valid_field_aliases_of self target_type) = true.

End Stored.

(** ** The registry of [defaults_test.py]

    [GenericTarget] and its two subclasses [Test1Target] and [Test2Target],
    with the fields [tags], [description] and [dependencies], over a small
    universe of Python values. *)

Module Fixture.

Inductive pyvalue : Type :=
| PyNone
| PyStr (s : string)
| PyList (xs : list string)
| PyTuple (xs : list string).

Definition str_repr (s : string) : string := "'" ++ s ++ "'".

Definition tuple_repr (xs : list string) : string :=
  match xs with
  | [x] => "(" ++ str_repr x ++ ",)"
  | _ => "(" ++ join ", " (map str_repr xs) ++ ")"
  end.

Definition pyvalue_repr (v : pyvalue) : string :=
  match v with
  | PyNone => "None"
  | PyStr s => str_repr s
  | PyList xs => "[" ++ join ", " (map str_repr xs) ++ "]"
  | PyTuple xs => tuple_repr xs
  end.

Definition pyvalue_type_name (v : pyvalue) : string :=
  match v with
  | PyNone => "NoneType"
  | PyStr _ => "str"
  | PyList _ => "list"
  | PyTuple _ => "tuple"
  end.

(** [str(Address(path, generated_name=name))] *)
Definition spec_of (a : string * string) : string :=
  (if String.eqb (fst a) "" then "//" else fst a) ++ "#" ++ snd a.

#[export] Instance runtime : Runtime := {|
  Any := pyvalue;
  repr := pyvalue_repr;
  type_name := pyvalue_type_name;
  tuple_str := tuple_repr;
  Address := string * string;
  make_address := fun path name => (path, name);
  address_str := spec_of;
  UnionMembership := unit
|}.

Definition invalid_field_type (field : string) (address : string * string)
    (raw : pyvalue) (expected : string) : exception :=
  InvalidFieldException
    ("The " ++ str_repr field ++ " field in target " ++ spec_of address
     ++ " must be " ++ expected ++ ", but was `" ++ pyvalue_repr raw
     ++ "` with type `" ++ pyvalue_type_name raw ++ "`.").

(** [StringSequenceField.compute_value] *)
Definition string_sequence (field : string) (raw : pyvalue)
    (address : string * string) : result pyvalue :=
  match raw with
  | PyNone => rret PyNone
  | PyList xs | PyTuple xs => rret (PyTuple xs)
  | PyStr _ =>
      rraise (invalid_field_type field address raw
                "an iterable of strings (e.g. a list of strings)")
  end.

(** [StringField.compute_value] *)
Definition string_value (field : string) (raw : pyvalue)
    (address : string * string) : result pyvalue :=
  match raw with
  | PyNone => rret PyNone
  | PyStr s => rret (PyStr s)
  | _ => rraise (invalid_field_type field address raw "a string")
  end.

Definition Tags : FieldType :=
  {| field_alias := "tags"; deprecated_alias := None;
     compute_value := string_sequence "tags" |}.

Definition DescriptionField : FieldType :=
  {| field_alias := "description"; deprecated_alias := None;
     compute_value := string_value "description" |}.

Definition Dependencies : FieldType :=
  {| field_alias := "dependencies"; deprecated_alias := None;
     compute_value := string_sequence "dependencies" |}.

(** A field that was renamed: [sources], formerly [srcs]. *)
Definition Sources : FieldType :=
  {| field_alias := "sources"; deprecated_alias := Some "srcs";
     compute_value := string_sequence "sources" |}.

(** Every alias and deprecated alias of the field types, each mapped to its
    field type. *)
Definition field_aliases_to_field_types (field_types : list FieldType)
    : dict FieldType :=
  fold_left
    (fun acc field_type =>
       let acc' := set acc (field_alias field_type) field_type in
       match deprecated_alias field_type with
       | Some d => set acc' d field_type
       | None => acc'
       end)
    field_types [].

Definition target_type (name : string) (core_fields : list FieldType) : TargetType :=
  {| alias := name;
     class_field_types := fun _ => core_fields;
     _get_field_aliases_to_field_types := field_aliases_to_field_types |}.

Definition GenericTarget : TargetType :=
  target_type "target" [Tags; DescriptionField; Dependencies].
Definition Test1Target : TargetType :=
  target_type "test_type_1" [Tags; DescriptionField; Dependencies].
Definition Test2Target : TargetType :=
  target_type "test_type_2" [Tags; DescriptionField; Dependencies].
(** A target type with a renamed field, not in the registry of the tests. *)
Definition FilesTarget : TargetType :=
  target_type "files" [Tags; Sources].

Definition registered_types : RegisteredTargetTypes :=
  {| aliases_to_types :=
       map (fun tgt => (alias tgt, tgt)) [GenericTarget; Test1Target; Test2Target] |}.

Definition registered_with_files : RegisteredTargetTypes :=
  {| aliases_to_types :=
       map (fun tgt => (alias tgt, tgt)) [FilesTarget; GenericTarget] |}.

(** One [Scenario] of [test_set_defaults]: create, [set_defaults], freeze. *)
Definition scenario (path : string) (args : list SetDefaultsT)
    (all : option SetDefaultsValueT) (extend : bool)
    (parent_defaults : BuildFileDefaults) : result BuildFileDefaults :=
  fst ((set_defaults args all extend [] ;;; get_frozen_defaults)%py
         (create path parent_defaults registered_types tt)).

(** The engine of the root BUILD file, before any directive. *)
Definition root : BuildFileDefaultsParserState :=
  create "" [] registered_types tt.

(** The parent tables of the scenarios "simple inherit", "extend test" and
    "reset default". *)
Definition tagged_parent : BuildFileDefaults :=
  [("test_type_1", [("tags", PyTuple ["tagged-1"])])].

Definition root_tag_parent : BuildFileDefaults :=
  [("target", [("tags", PyTuple ["root-tag"])]);
   ("test_type_1", [("tags", PyTuple ["root-tag"])]);
   ("test_type_2", [("tags", PyTuple ["root-tag"]);
                    ("description", PyStr "extend default with desc")])].

Definition foo_bar_parent : BuildFileDefaults :=
  [("test_type_1", [("tags", PyTuple ["foo-bar"])])].

(** Engines built from them. *)
Definition tagged_engine : BuildFileDefaultsParserState :=
  create "src/proj/a" tagged_parent registered_types tt.

Definition root_tag_engine : BuildFileDefaultsParserState :=
  create "src" root_tag_parent registered_types tt.

Definition foo_bar_engine : BuildFileDefaultsParserState :=
  create "" foo_bar_parent registered_types tt.

(** Directives of the scenarios. *)
Definition only_description : SetDefaultsT :=
  IsDict [(KStr "test_type_2",
           IsDict [("description", PyStr "only desc default")])].

Definition unknown_target : SetDefaultsT :=
  IsDict [(KStr "unknown_target", IsDict [])].

Definition invalid_field : SetDefaultsT :=
  IsDict [(KStr "test_type_1", IsDict [("does-not-exist", PyTuple [])])].

Definition reset_test_type_1 : SetDefaultsT :=
  IsDict [(KStr "test_type_1", IsDict [])].

(** An unknown kind before a kind with an unknown field, in one directive. *)
Definition unknown_target_then_invalid_field : SetDefaultsT :=
  IsDict [(KStr "unknown_target", IsDict []);
          (KStr "test_type_1", IsDict [("does-not-exist", PyTuple [])])].

(** [tags] for every kind and for one kind, in one call. *)
Definition tags_x : dict pyvalue := [("tags", PyList ["x"])].
Definition tags_y_for_test_type_1 : SetDefaultsT :=
  IsDict [(KStr "test_type_1", IsDict [("tags", PyList ["y"])])].

(** Working defaults that hold a deprecated alias and an alias no field has. *)
Definition files_fields : dict pyvalue :=
  [("srcs", PyList ["a.txt"]); ("bogus", PyNone)].

Definition files_engine : BuildFileDefaultsParserState :=
  {| address := ("src", "__defaults__");
     defaults := [("files", files_fields)];
     registered_target_types := registered_with_files;
     union_membership := tt |}.

(** More directives and engines for the scenarios. *)
Definition tags_z_for_test_type_1 : SetDefaultsT :=
  IsDict [(KStr "test_type_1", IsDict [("tags", PyList ["z"])])].

Definition bad_type : SetDefaultsT := NotDict (PyList ["bad type"]).

(** Working defaults with a kind that is not registered. *)
Definition orphan_engine : BuildFileDefaultsParserState :=
  {| address := ("src", "__defaults__");
     defaults := [("target", [("tags", PyTuple ["t"])]);
                  ("gone", [("tags", PyTuple ["x"])])];
     registered_target_types := registered_types;
     union_membership := tt |}.

Definition orphan_empty_engine : BuildFileDefaultsParserState :=
  {| address := ("src", "__defaults__");
     defaults := [("target", [("tags", PyTuple ["t"])]); ("gone", [])];
     registered_target_types := registered_types;
     union_membership := tt |}.

(** Working defaults after [set_defaults] was given a string for [tags]. *)
Definition bad_tags_engine : BuildFileDefaultsParserState :=
  {| address := ("src/proj/a", "__defaults__");
     defaults := [("test_type_1", [("tags", PyStr "foo-bar")])];
     registered_target_types := registered_types;
     union_membership := tt |}.

(** Working defaults with a deprecated alias and a current one. *)
Definition renamed_fields : dict pyvalue :=
  [("srcs", PyList ["a.txt"]); ("tags", PyList ["t"])].

Definition renamed_engine : BuildFileDefaultsParserState :=
  {| address := ("src", "__defaults__");
     defaults := [("files", renamed_fields)];
     registered_target_types := registered_with_files;
     union_membership := tt |}.

End Fixture.

(** ** Dictionary facts *)

Section DictFacts.
Context {V : Type}.
Implicit Types (d u : dict V) (k : string) (v : V).

Lemma get_set_same d k v : get (set d k v) k = Some v.
Proof.
  induction d as [|[k' v'] d IH]; simpl.
  - now rewrite String.eqb_refl.
  - destruct (String.eqb k k') eqn:E; simpl; rewrite E; auto.
Qed.

Lemma get_set_other d k k' v : k <> k' -> get (set d k v) k' = get d k'.
Proof.
  intros Hne. induction d as [|[k0 v0] d IH]; simpl.
  - destruct (String.eqb_spec k' k); congruence.
  - destruct (String.eqb_spec k k0) as [->|]; simpl.
    + destruct (String.eqb_spec k' k0); congruence.
    + now rewrite IH.
Qed.

Lemma get_pop_same d k : get (pop d k) k = None.
Proof.
  induction d as [|[k' v'] d IH]; simpl; auto.
  destruct (String.eqb k k') eqn:E; simpl; rewrite ?E; auto.
Qed.

Lemma get_pop_other d k k' : k <> k' -> get (pop d k) k' = get d k'.
Proof.
  intros Hne. induction d as [|[k0 v0] d IH]; simpl; auto.
  destruct (String.eqb_spec k k0) as [->|]; simpl.
  - destruct (String.eqb_spec k' k0); congruence.
  - now rewrite IH.
Qed.

Lemma get_None_keys d k : get d k = None <-> ~ In k (keys d).
Proof.
  induction d as [|[k' v'] d IH]; simpl.
  - tauto.
  - destruct (String.eqb_spec k k') as [->|Hne].
    + split; [discriminate | intros H; exfalso; auto].
    + rewrite IH. intuition congruence.
Qed.

Lemma get_Some_In d k v : get d k = Some v -> In (k, v) d.
Proof.
  induction d as [|[k' v'] d IH]; simpl; [discriminate|].
  destruct (String.eqb_spec k k') as [->|Hne].
  - intros [= ->]. now left.
  - intros H. right. auto.
Qed.

Lemma keys_set_absent d k v : get d k = None -> keys (set d k v) = keys d ++ [k].
Proof.
  induction d as [|[k' v'] d IH]; simpl; auto.
  destruct (String.eqb k k'); [discriminate|].
  intros H. simpl. now rewrite IH.
Qed.

Lemma keys_set_present d k v w : get d k = Some w -> keys (set d k v) = keys d.
Proof.
  induction d as [|[k' v'] d IH]; simpl; [discriminate|].
  destruct (String.eqb k k'); [reflexivity|].
  intros H. simpl. now rewrite IH.
Qed.

Lemma In_keys_pop d k k' : In k' (keys (pop d k)) -> In k' (keys d).
Proof.
  induction d as [|[k0 v0] d IH]; simpl; auto.
  destruct (String.eqb k k0); simpl; intuition.
Qed.

Lemma NoDup_keys_set d k v : NoDup (keys d) -> NoDup (keys (set d k v)).
Proof.
  intros Hd. destruct (get d k) as [w|] eqn:E.
  - now rewrite (keys_set_present _ _ _ _ E).
  - rewrite (keys_set_absent _ _ _ E).
    apply NoDup_app; auto.
    + repeat constructor. simpl. tauto.
    + intros x Hx [<-|[]]. apply get_None_keys in E. contradiction.
Qed.

Lemma NoDup_keys_pop d k : NoDup (keys d) -> NoDup (keys (pop d k)).
Proof.
  induction d as [|[k0 v0] d IH]; simpl; auto.
  intros Hd. inversion Hd; subst.
  destruct (String.eqb k k0); simpl; auto.
  constructor; auto. intros Hin. apply In_keys_pop in Hin. contradiction.
Qed.

Lemma last_binding_app u1 u2 k :
  last_binding (u1 ++ u2) k =
  match last_binding u2 k with
  | Some w => Some w
  | None => last_binding u1 k
  end.
Proof.
  induction u1 as [|[k' v'] u1 IH]; simpl.
  - now destruct (last_binding u2 k).
  - rewrite IH. now destruct (last_binding u2 k).
Qed.

Lemma get_update d u k :
  get (update d u) k =
  match last_binding u k with
  | Some w => Some w
  | None => get d k
  end.
Proof.
  unfold update. revert d.
  induction u as [|[k' v'] u IH]; intros d; simpl; auto.
  rewrite IH. destruct (last_binding u k); auto.
  destruct (String.eqb_spec k k') as [->|Hne].
  - apply get_set_same.
  - apply get_set_other. congruence.
Qed.

Lemma update_app d u1 u2 : update d (u1 ++ u2) = update (update d u1) u2.
Proof. unfold update. apply fold_left_app. Qed.

Lemma last_binding_None_keys u k : last_binding u k = None <-> ~ In k (keys u).
Proof.
  induction u as [|[k' v'] u IH]; simpl.
  - tauto.
  - destruct (last_binding u k).
    + split; [discriminate|]. intros H. exfalso.
      assert (Hn : ~ In k (keys u)) by tauto.
      apply IH in Hn. discriminate.
    + destruct (String.eqb_spec k k') as [->|Hne].
      * split; [discriminate | intros H; exfalso; auto].
      * assert (~ In k (keys u)) by now apply IH.
        intuition congruence.
Qed.

End DictFacts.

(** ** The shape of a [set_defaults] call *)

Section Call.
Context {R : Runtime}.
Implicit Types (self : BuildFileDefaultsParserState).

Lemma copy_items {A B} (d : list (A * B)) : map (fun kv => (fst kv, snd kv)) d = d.
Proof. induction d as [|[a b] d IH]; simpl; congruence. Qed.

Lemma with_defaults_same self : with_defaults self (defaults self) = self.
Proof. now destruct self. Qed.

(** The last loop only rewrites [self.defaults], and never raises. *)
Lemma for_each_store_default new_defaults self :
  for_each store_default new_defaults self =
  (inr tt, with_defaults self (store_all new_defaults (defaults self))).
Proof.
  revert self. induction new_defaults as [|[tgt default] ds IH]; intros self; simpl.
  - unfold ret. now rewrite with_defaults_same.
  - unfold bind, store_default, store_all; simpl.
    destruct (is_empty default); unfold modify; rewrite IH; reflexivity.
Qed.

(** [set_defaults] first computes the new defaults, which is where every
    exception comes from, and only then touches [self]. *)
Lemma set_defaults_unfold args all extend kwargs self :
  set_defaults args all extend kwargs self =
  match call_defaults self args all extend with
  | inl e => (inl e, self)
  | inr d => (inr tt, with_defaults self (store_all d (defaults self)))
  end.
Proof.
  unfold set_defaults, call_defaults, bind, read, lift, rbind.
  destruct all as [a|].
  - destruct (_process_defaults self _ _ true) as [e|d1]; [reflexivity|].
    destruct (rfold _ args d1) as [e|d2]; [reflexivity|].
    apply for_each_store_default.
  - unfold rret.
    destruct (rfold _ args _) as [e|d2]; [reflexivity|].
    apply for_each_store_default.
Qed.

Lemma set_defaults_registry args all extend kwargs self r self' :
  set_defaults args all extend kwargs self = (r, self') ->
  registered_target_types self' = registered_target_types self
  /\ union_membership self' = union_membership self
  /\ address self' = address self.
Proof.
  rewrite set_defaults_unfold.
  destruct (call_defaults self args all extend); intros [= <- <-]; auto.
Qed.

(** ** Loops in the exception monad *)

Lemma rfold_app {A B} (f : A -> B -> result A) xs ys a :
  rfold f (xs ++ ys) a = rbind (rfold f xs a) (rfold f ys).
Proof.
  revert a. induction xs as [|x xs IH]; intros a; simpl; auto.
  destruct (f a x); simpl; auto.
Qed.

Lemma rfold_raises_in {A B} (f : A -> B -> result A) xs x :
  In x xs -> (forall a, exists e, f a x = inl e) ->
  forall a, exists e, rfold f xs a = inl e.
Proof.
  intros Hin Hx. induction xs as [|y xs IH]; [destruct Hin|].
  intros a. simpl. destruct Hin as [->|Hin].
  - destruct (Hx a) as [e ->]. now exists e.
  - destruct (f a y) as [e|a']; simpl; [now exists e | auto].
Qed.

Lemma rmap_keys {A B} (f : string * A -> result (string * B)) xs ys :
  (forall x y, f x = inr y -> fst y = fst x) ->
  rmap f xs = inr ys -> keys ys = keys xs.
Proof.
  intros Hf. revert ys. induction xs as [|x xs IH]; intros ys; simpl.
  - now intros [= <-].
  - destruct (f x) as [e|y] eqn:E; simpl; [discriminate|].
    destruct (rmap f xs) as [e|ys'] eqn:E'; simpl; [discriminate|].
    intros [= <-]. simpl. f_equal; auto.
Qed.

End Call.

(** ** Calls that change nothing *)

Section Unchanged.
Context {R : Runtime}.
Implicit Types (self : BuildFileDefaultsParserState).

Lemma get_frozen_defaults_state self : snd (get_frozen_defaults self) = self.
Proof. reflexivity. Qed.

Lemma get_frozen_defaults_keys self tbl :
  fst (get_frozen_defaults self) = inr tbl -> keys tbl = keys (defaults self).
Proof.
  unfold get_frozen_defaults, bind, read, lift; simpl.
  apply rmap_keys. intros [k fields] y; simpl.
  destruct (frozen_fields self k fields); simpl; [discriminate|].
  now intros [= <-].
Qed.

Lemma set_defaults_nothing self kwargs :
  set_defaults [] None false kwargs self = (inr tt, self).
Proof.
  rewrite set_defaults_unfold. simpl. now rewrite with_defaults_same.
Qed.

(** C3. When a [set_defaults] call raises, whatever the exception, the
    engine is exactly as it was before the call: nothing of the call has
    been applied to the working defaults. *)
Theorem set_defaults_raise_keeps_state self args all extend kwargs e self' :
  set_defaults args all extend kwargs self = (inl e, self') ->
  self' = self /\ defaults self' = defaults self.
Proof.
  rewrite set_defaults_unfold.
  destruct (call_defaults self args all extend) as [e'|d].
  - intros [= _ <-]. auto.
  - discriminate.
Qed.

(** C9. [set_defaults] never reads its extra keywords: a call with nothing
    but unrecognised keywords returns normally and leaves the engine as it
    was, and in any call the extra keywords make no difference. *)
Theorem set_defaults_ignores_kwargs self kwargs :
  set_defaults [] None false kwargs self = (inr tt, self)
  /\ forall args all extend kwargs',
       set_defaults args all extend kwargs self =
       set_defaults args all extend kwargs' self.
Proof.
  split.
  - apply set_defaults_nothing.
  - reflexivity.
Qed.

(** C7. [get_frozen_defaults] leaves the engine as it was, and two calls in
    a row give the same table (or raise the same exception). *)
Theorem get_frozen_defaults_pure self :
  snd (get_frozen_defaults self) = self
  /\ get_frozen_defaults (snd (get_frozen_defaults self)) = get_frozen_defaults self
  /\ (t1 <- get_frozen_defaults ;; t2 <- get_frozen_defaults ;; ret (t1, t2))%py self
     = (t <- get_frozen_defaults ;; ret (t, t))%py self.
Proof.
  split; [reflexivity|]. split; [reflexivity|].
  unfold bind. rewrite (surjective_pairing (get_frozen_defaults self)).
  rewrite get_frozen_defaults_state.
  destruct (fst (get_frozen_defaults self)) as [e|t] eqn:E; [reflexivity|].
  rewrite (surjective_pairing (get_frozen_defaults self)).
  rewrite get_frozen_defaults_state, E. reflexivity.
Qed.

(** C1, as the code has it.  An engine built from a parent table starts with
    the parent's entries as its working defaults, and a [set_defaults] call
    without directives and without [all] ([extend] false) returns normally
    and keeps them.  Freezing then gives what freezing the fresh engine
    gives: a table with the parent's kinds, empty only when the parent is. *)
Theorem no_directives_keep_parent path parent rtt um kwargs :
  defaults (create path parent rtt um) = parent
  /\ set_defaults [] None false kwargs (create path parent rtt um)
     = (inr tt, create path parent rtt um)
  /\ (set_defaults [] None false kwargs ;;; get_frozen_defaults)%py
       (create path parent rtt um)
     = get_frozen_defaults (create path parent rtt um)
  /\ forall tbl,
       fst (get_frozen_defaults (create path parent rtt um)) = inr tbl ->
       keys tbl = keys parent.
Proof.
  assert (Hd : defaults (create path parent rtt um) = parent)
    by (simpl; apply copy_items).
  split; [exact Hd|]. split; [apply set_defaults_nothing|]. split.
  - unfold bind at 1. now rewrite set_defaults_nothing.
  - intros tbl Htbl. apply get_frozen_defaults_keys in Htbl. now rewrite Hd in Htbl.
Qed.

End Unchanged.

(** ** [_process_defaults] as a sequence of merges *)

Section Merges.
Context {R : Runtime}.
Implicit Types (self : BuildFileDefaultsParserState).

Lemma pop_filter {V} (d : dict V) k :
  pop d k = filter (fun kv => negb (String.eqb k (fst kv))) d.
Proof.
  induction d as [|[k' v'] d IH]; simpl; auto.
  destruct (String.eqb k k'); simpl; congruence.
Qed.

Lemma filter_filter {A} (p q : A -> bool) xs :
  filter p (filter q xs) = filter (fun x => p x && q x) xs.
Proof.
  induction xs as [|x xs IH]; simpl; auto.
  destruct (q x); simpl; rewrite ?andb_true_r, ?andb_false_r.
  - destruct (p x); simpl; congruence.
  - exact IH.
Qed.

Lemma filter_all {A} (p : A -> bool) xs :
  (forall x, In x xs -> p x = true) -> filter p xs = xs.
Proof.
  induction xs as [|x xs IH]; simpl; auto.
  intros H. rewrite (H x) by auto. f_equal. auto.
Qed.

Lemma mem_In x xs : mem x xs = true <-> In x xs.
Proof.
  unfold mem. rewrite existsb_exists. split.
  - intros [y [Hy E]]. apply String.eqb_eq in E. now subst.
  - intros H. exists x. split; auto. apply String.eqb_refl.
Qed.

(** With unknown fields ignored the field loop never raises and leaves
    exactly the fields the target type has. *)
Lemma check_fields_ignore target_type valid default :
  check_fields target_type valid true default = inr (restrict_to valid default).
Proof.
  unfold check_fields, restrict_to.
  set (step := fun (raw_values : dict Any) fa => _).
  assert (H : forall ks raw,
             rfold step ks raw =
             inr (filter (fun kv => mem (fst kv) valid || negb (mem (fst kv) ks)) raw)).
  { induction ks as [|k ks IH]; intros raw; simpl.
    - unfold rret. f_equal. symmetry. apply filter_all.
      intros x _. apply orb_true_r.
    - unfold step at 1. destruct (mem k valid) eqn:Ek; simpl.
      + rewrite IH. f_equal. apply filter_ext. intros [k' v']; simpl.
        destruct (String.eqb_spec k' k) as [->|]; simpl; auto.
        now rewrite Ek.
      + rewrite IH, pop_filter, filter_filter. f_equal.
        apply filter_ext. intros [k' v']; simpl.
        rewrite (String.eqb_sym k k').
        destruct (String.eqb_spec k' k) as [->|]; simpl.
        * rewrite Ek. simpl. apply andb_false_r.
        * apply andb_true_r. }
  rewrite H. f_equal. apply filter_ext_in. intros [k v] Hin; simpl.
  assert (E : mem k (keys default) = true).
  { apply mem_In. unfold keys. now apply (in_map fst) in Hin. }
  rewrite E. simpl. apply orb_false_r.
Qed.

(** Without it, the loop returns [default] untouched when every field is
    known, and raises for the first unknown one. *)
Lemma check_fields_strict_ok target_type valid default raw_values :
  check_fields target_type valid false default = inr raw_values ->
  raw_values = default /\ forall fa, In fa (keys default) -> mem fa valid = true.
Proof.
  unfold check_fields. generalize (keys default) as ks.
  intros ks. revert default. induction ks as [|k ks IH]; intros raw; simpl.
  - intros [= <-]. split; [reflexivity | intros fa []].
  - destruct (mem k valid) eqn:Ek; simpl; [|discriminate].
    intros H. apply IH in H. destruct H as [-> H]. split; [reflexivity|].
    intros fa [<-|Hin]; auto.
Qed.

Lemma check_fields_strict_first target_type valid before fa v after :
  (forall fa', In fa' (keys before) -> mem fa' valid = true) ->
  mem fa valid = false ->
  check_fields target_type valid false (before ++ (fa, v) :: after) =
  inl (InvalidFieldException (unrecognized_field_msg fa target_type valid)).
Proof.
  unfold check_fields, keys. rewrite map_app. simpl.
  generalize (before ++ (fa, v) :: after) as raw.
  induction before as [|[k w] before IH]; intros raw Hb Hfa; simpl.
  - now rewrite Hfa.
  - rewrite (Hb k) by (simpl; auto). simpl. apply IH; auto.
    intros fa' Hin. apply Hb. simpl. auto.
Qed.

Lemma check_fields_strict_raises target_type valid default fa :
  In fa (keys default) -> mem fa valid = false ->
  exists e, check_fields target_type valid false default = inl e.
Proof.
  intros Hin Hfa.
  destruct (check_fields target_type valid false default) as [e|raw] eqn:E.
  - now exists e.
  - apply check_fields_strict_ok in E. destruct E as [_ E].
    rewrite (E fa Hin) in Hfa. discriminate.
Qed.

Lemma apply_merges_app ms1 ms2 (d : dict (dict Any)) :
  apply_merges (ms1 ++ ms2) d = apply_merges ms2 (apply_merges ms1 d).
Proof. unfold apply_merges. apply fold_left_app. Qed.

(** What one alias of a directive does when it does not raise. *)
Lemma process_target_alias_ok self default ignore d target_alias d' :
  process_target_alias self default ignore d target_alias = inr d' ->
  d' = apply_merges (merges_of_alias self ignore default target_alias) d.
Proof.
  unfold process_target_alias, merges_of_alias.
  destruct (get _ target_alias) as [target_type|]; [|discriminate].
  destruct ignore.
  - rewrite check_fields_ignore. simpl. now intros [= <-].
  - destruct (check_fields _ _ false default) as [e|raw] eqn:E; simpl; [discriminate|].
    apply check_fields_strict_ok in E. destruct E as [-> _]. now intros [= <-].
Qed.

Lemma process_targets_ok self default ignore targets d d' :
  rfold (process_target_alias self default ignore) targets d = inr d' ->
  d' = apply_merges (flat_map (merges_of_alias self ignore default) targets) d.
Proof.
  revert d. induction targets as [|a targets IH]; intros d; simpl.
  - now intros [= <-].
  - destruct (process_target_alias self default ignore d a) as [e|d1] eqn:E;
      simpl; [discriminate|].
    intros H. apply IH in H. apply process_target_alias_ok in E. subst.
    now rewrite apply_merges_app.
Qed.

Lemma process_item_ok self ignore d item d' :
  process_item self ignore d item = inr d' ->
  d' = apply_merges (merges_of_item self ignore item) d.
Proof.
  unfold process_item, merges_of_item. destruct (snd item); [|discriminate].
  apply process_targets_ok.
Qed.

Lemma _process_defaults_ok self d targets_defaults ignore d' :
  _process_defaults self d targets_defaults ignore = inr d' ->
  d' = apply_merges (merges_of_directive self ignore targets_defaults) d.
Proof.
  unfold _process_defaults, merges_of_directive.
  destruct targets_defaults as [items|o]; [|discriminate].
  revert d. induction items as [|item items IH]; intros d; simpl.
  - now intros [= <-].
  - destruct (process_item self ignore d item) as [e|d1] eqn:E; simpl; [discriminate|].
    intros H. apply IH in H. apply process_item_ok in E. subst.
    now rewrite apply_merges_app.
Qed.

Lemma process_args_ok self args d d' :
  rfold (fun d arg => _process_defaults self d arg false) args d = inr d' ->
  d' = apply_merges (explicit_merges self args) d.
Proof.
  unfold explicit_merges.
  revert d. induction args as [|arg args IH]; intros d; simpl.
  - now intros [= <-].
  - destruct (_process_defaults self d arg false) as [e|d1] eqn:E; simpl; [discriminate|].
    intros H. apply IH in H. apply _process_defaults_ok in E. subst.
    now rewrite apply_merges_app.
Qed.

(** The dictionary a call builds is the initial one with the merges of the
    call applied in order. *)
Lemma call_defaults_ok self args all extend d :
  call_defaults self args all extend = inr d ->
  d = apply_merges (call_merges self args all)
        (if extend then defaults self else []).
Proof.
  unfold call_defaults, call_merges, all_merges.
  rewrite copy_items, apply_merges_app.
  destruct extend; cbn [negb]; cbv iota zeta;
    (destruct all as [a|];
     [ destruct (_process_defaults self _ _ true) as [e|d1] eqn:E;
       simpl; [discriminate|];
       apply _process_defaults_ok in E; subst d1; apply process_args_ok
     | simpl; apply process_args_ok ]).
Qed.

End Merges.

(** ** What a call that returns leaves in the working defaults *)

Section Outcome.
Context {R : Runtime}.
Implicit Types (self : BuildFileDefaultsParserState).
Implicit Types (ms : list (string * dict Any)) (d : dict (dict Any)).

Lemma is_empty_nil {V} (m : dict V) : is_empty m = true -> m = [].
Proof. destruct m; [reflexivity | discriminate]. Qed.

Lemma get_setdefault_update d k raw k' :
  get (setdefault_update d k raw) k' =
  if String.eqb k' k then Some (update (or_empty (get d k)) raw) else get d k'.
Proof.
  unfold setdefault_update.
  destruct (String.eqb_spec k' k) as [->|Hne].
  - destruct (get d k); simpl; apply get_set_same.
  - destruct (get d k); simpl; apply get_set_other; congruence.
Qed.

Lemma NoDup_setdefault_update d k raw :
  NoDup (keys d) -> NoDup (keys (setdefault_update d k raw)).
Proof.
  unfold setdefault_update. destruct (get d k); apply NoDup_keys_set.
Qed.

Lemma NoDup_apply_merges ms d : NoDup (keys d) -> NoDup (keys (apply_merges ms d)).
Proof.
  revert d. induction ms as [|m ms IH]; intros d Hd; simpl; auto.
  apply IH. now apply NoDup_setdefault_update.
Qed.

Lemma given_fields_app ms1 ms2 kind :
  given_fields (ms1 ++ ms2) kind = given_fields ms1 kind ++ given_fields ms2 kind.
Proof. unfold given_fields. apply flat_map_app. Qed.

Lemma given_fields_unnamed ms kind :
  mem kind (named_kinds ms) = false -> given_fields ms kind = [].
Proof.
  induction ms as [|[k u] ms IH]; simpl; auto.
  unfold mem in *. simpl.
  destruct (String.eqb kind k); simpl; [discriminate | auto].
Qed.

(** After a sequence of merges a named kind holds what it held before,
    updated with the assignments given to it; other kinds are as before. *)
Lemma get_apply_merges ms d kind :
  get (apply_merges ms d) kind =
  if mem kind (named_kinds ms)
  then Some (update (or_empty (get d kind)) (given_fields ms kind))
  else get d kind.
Proof.
  revert d. induction ms as [|[k u] ms IH]; intros d; simpl; auto.
  rewrite IH, get_setdefault_update.
  change (mem kind (k :: named_kinds ms))
    with (String.eqb kind k || mem kind (named_kinds ms)).
  destruct (String.eqb_spec kind k) as [->|Hne]; simpl.
  - rewrite update_app.
    destruct (mem k (named_kinds ms)) eqn:E; auto.
    now rewrite (given_fields_unnamed _ _ E).
  - reflexivity.
Qed.

(** The last loop of [set_defaults], read key by key. *)
Lemma get_store_all new_defaults d kind :
  NoDup (keys new_defaults) ->
  get (store_all new_defaults d) kind =
  match get new_defaults kind with
  | Some m => if is_empty m then None else Some m
  | None => get d kind
  end.
Proof.
  revert d. induction new_defaults as [|[k m] ds IH]; intros d Hnd; simpl; auto.
  inversion Hnd as [|? ? Hk Hds]; subst.
  unfold store_all in *. simpl. rewrite IH by assumption.
  destruct (String.eqb_spec kind k) as [->|Hne].
  - apply get_None_keys in Hk. rewrite Hk.
    destruct (is_empty m); [apply get_pop_same | apply get_set_same].
  - destruct (get ds kind); auto.
    destruct (is_empty m); [apply get_pop_other | apply get_set_other]; congruence.
Qed.

Lemma NoDup_store_all new_defaults d :
  NoDup (keys d) -> NoDup (keys (store_all new_defaults d)).
Proof.
  revert d. induction new_defaults as [|[k m] ds IH]; intros d Hd; simpl; auto.
  apply IH. destruct (is_empty m); [apply NoDup_keys_pop | apply NoDup_keys_set]; auto.
Qed.

(** The working defaults stay a dictionary. *)
Lemma set_defaults_well_formed self args all extend kwargs r self' :
  well_formed self ->
  set_defaults args all extend kwargs self = (r, self') ->
  well_formed self'.
Proof.
  unfold well_formed. intros Hwf. rewrite set_defaults_unfold.
  destruct (call_defaults self args all extend); intros [= <- <-]; auto.
  simpl. now apply NoDup_store_all.
Qed.

Lemma create_well_formed path parent rtt um :
  NoDup (keys parent) -> well_formed (create path parent rtt um).
Proof. unfold well_formed. simpl. now rewrite copy_items. Qed.

(** A call that returns, key by key. *)
Lemma set_defaults_returns self args all extend kwargs self' :
  (extend = true -> well_formed self) ->
  set_defaults args all extend kwargs self = (inr tt, self') ->
  forall kind,
    get (defaults self') kind =
    if mem kind (named_kinds (call_merges self args all))
    then
      let m := update (if extend then defaults_for self kind else [])
                      (given_fields (call_merges self args all) kind) in
      if is_empty m then None else Some m
    else if extend
         then match get (defaults self) kind with
              | Some m => if is_empty m then None else Some m
              | None => None
              end
         else get (defaults self) kind.
Proof.
  intros Hwf. rewrite set_defaults_unfold.
  destruct (call_defaults self args all extend) as [e|d] eqn:E; [discriminate|].
  intros [= <-] kind. simpl.
  apply call_defaults_ok in E.
  assert (Hnd : NoDup (keys d)).
  { subst d. apply NoDup_apply_merges. destruct extend; [now apply Hwf | constructor]. }
  rewrite (get_store_all _ _ _ Hnd). subst d. rewrite get_apply_merges.
  unfold defaults_for.
  destruct (mem kind (named_kinds (call_merges self args all))).
  - destruct extend; reflexivity.
  - destruct extend; simpl; auto. now destruct (get (defaults self) kind).
Qed.

(** The same for a kind the call names, through [get]. *)
Lemma set_defaults_named self args all extend kwargs self' kind :
  (extend = true -> well_formed self) ->
  set_defaults args all extend kwargs self = (inr tt, self') ->
  mem kind (named_kinds (call_merges self args all)) = true ->
  defaults_for self' kind =
  update (if extend then defaults_for self kind else [])
         (given_fields (call_merges self args all) kind).
Proof.
  intros Hwf Hcall Hnamed.
  pose proof (set_defaults_returns _ _ _ _ _ _ Hwf Hcall kind) as H.
  rewrite Hnamed in H. cbv zeta in H. unfold defaults_for at 1. rewrite H.
  match goal with |- context [is_empty ?m] => destruct (is_empty m) eqn:Em end.
  - now apply is_empty_nil in Em.
  - reflexivity.
Qed.

End Outcome.

(** ** Replacement, reset and the wildcard *)

Section Replace.
Context {R : Runtime}.
Implicit Types (self : BuildFileDefaultsParserState).

Lemma mem_app x xs ys : mem x (xs ++ ys) = mem x xs || mem x ys.
Proof. unfold mem. apply existsb_app. Qed.

Lemma named_kinds_app (ms1 ms2 : list (string * dict Any)) :
  named_kinds (ms1 ++ ms2) = named_kinds ms1 ++ named_kinds ms2.
Proof. unfold named_kinds. apply map_app. Qed.

Lemma given_fields_named (ms : list (string * dict Any)) kind fa v :
  last_binding (given_fields ms kind) fa = Some v ->
  mem kind (named_kinds ms) = true.
Proof.
  intros H. destruct (mem kind (named_kinds ms)) eqn:E; auto.
  rewrite (given_fields_unnamed _ _ E) in H. discriminate.
Qed.

Lemma last_binding_restrict_to valid (fields : dict Any) fa :
  last_binding (restrict_to valid fields) fa =
  if mem fa valid then last_binding fields fa else None.
Proof.
  induction fields as [|[k v] fields IH]; simpl.
  - now destruct (mem fa valid).
  - destruct (mem k valid) eqn:Ek; simpl; rewrite IH.
    + destruct (mem fa valid) eqn:Ef.
      * reflexivity.
      * destruct (String.eqb_spec fa k) as [->|]; congruence.
    + destruct (mem fa valid) eqn:Ef; auto.
      destruct (last_binding fields fa); auto.
      destruct (String.eqb_spec fa k) as [->|]; congruence.
Qed.

Lemma keys_restrict_to valid (fields : dict Any) fa :
  In fa (keys (restrict_to valid fields)) -> mem fa valid = true.
Proof.
  unfold keys, restrict_to. rewrite in_map_iff.
  intros [[k v] [<- Hin]]. apply filter_In in Hin. tauto.
Qed.

(** What the expansion of [all] assigns to one field of one kind: the value
    of the [all] mapping, or nothing. *)
Lemma all_given self fields kind fa target_aliases :
  let given :=
    given_fields (flat_map (merges_of_alias self true fields) target_aliases) kind in
  (last_binding given fa = None \/ last_binding given fa = last_binding fields fa)
  /\ forall target_alias target_type,
       In target_alias target_aliases ->
       get (aliases_to_types (registered_target_types self)) target_alias
         = Some target_type ->
       alias target_type = kind ->
       mem fa (valid_field_aliases_of self target_type) = true ->
       last_binding given fa = last_binding fields fa.
Proof.
  induction target_aliases as [|k0 ks [IH1 IH2]]; cbv zeta.
  - simpl. split; [now left | intros ? ? []].
  - simpl flat_map. rewrite given_fields_app, last_binding_app.
    assert (Hseg :
      last_binding (given_fields (merges_of_alias self true fields k0) kind) fa = None
      \/ last_binding (given_fields (merges_of_alias self true fields k0) kind) fa
         = last_binding fields fa).
    { unfold merges_of_alias.
      destruct (get _ k0) as [T0|]; simpl; [|now left].
      destruct (String.eqb kind (alias T0)); simpl; [|now left].
      rewrite app_nil_r, last_binding_restrict_to.
      destruct (mem fa _); [now right | now left]. }
    cbv zeta in IH1, IH2. split.
    + destruct IH1 as [-> | ->]; [exact Hseg|].
      destruct (last_binding fields fa); [now right | exact Hseg].
    + intros k T [<-|Hin] Hk Hal Hv.
      * assert (Hhere :
          last_binding (given_fields (merges_of_alias self true fields k0) kind) fa
          = last_binding fields fa).
        { unfold merges_of_alias. rewrite Hk. simpl. rewrite Hal, String.eqb_refl.
          now rewrite app_nil_r, last_binding_restrict_to, Hv. }
        rewrite Hhere. destruct IH1 as [-> | ->]; auto.
        now destruct (last_binding fields fa).
      * rewrite (IH2 k T Hin Hk Hal Hv).
        destruct (last_binding fields fa); auto.
        destruct Hseg as [-> | ->]; auto.
Qed.

Lemma all_names self fields target_aliases target_alias target_type :
  In target_alias target_aliases ->
  get (aliases_to_types (registered_target_types self)) target_alias
    = Some target_type ->
  mem (alias target_type)
      (named_kinds (flat_map (merges_of_alias self true fields) target_aliases)) = true.
Proof.
  intros Hin Hk. apply mem_In. unfold named_kinds. apply in_map_iff.
  exists (alias target_type,
          restrict_to (valid_field_aliases_of self target_type) fields).
  split; auto. apply in_flat_map. exists target_alias. split; auto.
  unfold merges_of_alias. rewrite Hk. now left.
Qed.

Lemma get_Some_keys {V} (d : dict V) k v : get d k = Some v -> In k (keys d).
Proof.
  intros H. apply get_Some_In in H. unfold keys. now apply (in_map fst) in H.
Qed.

(** With an [all] mapping the call names every registered kind. *)
Lemma all_names_call self args fields target_alias target_type :
  get (aliases_to_types (registered_target_types self)) target_alias
    = Some target_type ->
  mem (alias target_type)
      (named_kinds (call_merges self args (Some (IsDict fields)))) = true.
Proof.
  intros Hk.
  assert (Hin : In target_alias (aliases (registered_target_types self)))
    by (unfold aliases; eapply get_Some_keys; eauto).
  unfold call_merges. rewrite named_kinds_app, mem_app.
  unfold all_merges, merges_of_directive. simpl flat_map.
  rewrite app_nil_r. unfold merges_of_item. simpl.
  now rewrite (all_names self fields _ target_alias target_type Hin Hk).
Qed.

(** C2. A [set_defaults] call with [extend] false that returns: a kind the
    call names ends up with exactly the field mapping the call gives it
    (whatever it had before is dropped; with an empty mapping it has no
    entry), and a kind the call does not name keeps its entry. *)
Theorem set_defaults_replaces_named_kinds self args all kwargs self' :
  set_defaults args all false kwargs self = (inr tt, self') ->
  forall kind,
    (mem kind (named_kinds (call_merges self args all)) = true ->
     defaults_for self' kind = given_mapping (call_merges self args all) kind
     /\ get (defaults self') kind =
        (if is_empty (given_mapping (call_merges self args all) kind) then None
         else Some (given_mapping (call_merges self args all) kind))
     /\ forall fa,
          get (defaults_for self' kind) fa =
          last_binding (given_fields (call_merges self args all) kind) fa)
    /\ (mem kind (named_kinds (call_merges self args all)) = false ->
        get (defaults self') kind = get (defaults self) kind).
Proof.
  intros Hcall kind.
  assert (Hwf : false = true -> well_formed self) by discriminate.
  pose proof (set_defaults_returns _ _ _ _ _ _ Hwf Hcall kind) as Hget.
  split; intros Hnamed; rewrite Hnamed in Hget.
  - pose proof (set_defaults_named _ _ _ _ _ _ kind Hwf Hcall Hnamed) as Hfor.
    split; [exact Hfor|]. split; [exact Hget|].
    intros fa. rewrite Hfor, get_update.
    now destruct (last_binding _ fa).
  - exact Hget.
Qed.

(** C4. A call with an [all] mapping and explicit directives that returns:
    a field an explicit directive gives to a kind holds the explicit value
    (the last one given), and a field of the [all] mapping that no explicit
    directive gives to a registered kind which has that field holds the
    [all] value. *)
Theorem explicit_wins_over_all self args fields extend kwargs self' :
  well_formed self ->
  set_defaults args (Some (IsDict fields)) extend kwargs self = (inr tt, self') ->
  (forall kind fa y,
     last_binding (given_fields (explicit_merges self args) kind) fa = Some y ->
     get (defaults_for self' kind) fa = Some y)
  /\ (forall target_alias target_type fa x,
        get (aliases_to_types (registered_target_types self)) target_alias
          = Some target_type ->
        mem fa (valid_field_aliases_of self target_type) = true ->
        last_binding fields fa = Some x ->
        last_binding (given_fields (explicit_merges self args) (alias target_type)) fa
          = None ->
        get (defaults_for self' (alias target_type)) fa = Some x).
Proof.
  intros Hwf Hcall.
  assert (Hwf' : extend = true -> well_formed self) by auto.
  split.
  - intros kind fa y Hy.
    assert (Hnamed : mem kind
              (named_kinds (call_merges self args (Some (IsDict fields)))) = true).
    { unfold call_merges. rewrite named_kinds_app, mem_app.
      rewrite (given_fields_named _ _ _ _ Hy). apply orb_true_r. }
    rewrite (set_defaults_named _ _ _ _ _ _ kind Hwf' Hcall Hnamed), get_update.
    unfold call_merges. now rewrite given_fields_app, last_binding_app, Hy.
  - intros k T fa x Hk Hv Hx Hnone.
    assert (Hin : In k (aliases (registered_target_types self)))
      by (unfold aliases; eapply get_Some_keys; eauto).
    pose proof (all_names_call self args fields k T Hk) as Hnamed.
    rewrite (set_defaults_named _ _ _ _ _ _ _ Hwf' Hcall Hnamed), get_update.
    unfold call_merges. rewrite given_fields_app, last_binding_app, Hnone.
    unfold all_merges, merges_of_directive. simpl flat_map.
    rewrite app_nil_r. unfold merges_of_item. simpl.
    destruct (all_given self fields (alias T) fa (aliases (registered_target_types self)))
      as [_ Hall].
    cbv zeta in Hall. now rewrite (Hall k T Hin Hk eq_refl Hv), Hx.
Qed.

(** C5. An explicit directive that gives a registered kind the empty
    mapping ([extend] false) returns normally and removes the entry of that
    kind from the working defaults, whatever the parent gave it; the frozen
    table has no entry for the kind. *)
Theorem empty_directive_resets_kind self target_alias target_type kwargs :
  get (aliases_to_types (registered_target_types self)) target_alias
    = Some target_type ->
  exists self',
    set_defaults [IsDict [(KStr target_alias, IsDict [])]] None false kwargs self
      = (inr tt, self')
    /\ defaults self' = pop (defaults self) (alias target_type)
    /\ get (defaults self') (alias target_type) = None
    /\ forall tbl,
         fst (get_frozen_defaults self') = inr tbl ->
         get tbl (alias target_type) = None.
Proof.
  intros Hk.
  exists (with_defaults self (pop (defaults self) (alias target_type))).
  assert (Hcall : call_defaults self [IsDict [(KStr target_alias, IsDict [])]] None false
                  = inr [(alias target_type, [])]).
  { unfold call_defaults. simpl. unfold process_item. simpl.
    unfold process_target_alias. rewrite Hk. reflexivity. }
  split; [rewrite set_defaults_unfold, Hcall; reflexivity|].
  split; [reflexivity|]. split; [apply get_pop_same|].
  intros tbl Htbl. apply get_frozen_defaults_keys in Htbl.
  apply get_None_keys. rewrite Htbl. apply get_None_keys. apply get_pop_same.
Qed.

End Replace.

(** ** Calls that raise *)

Section Raising.
Context {R : Runtime}.
Implicit Types (self : BuildFileDefaultsParserState).

Lemma process_target_alias_unknown self default ignore d target_alias :
  get (aliases_to_types (registered_target_types self)) target_alias = None ->
  process_target_alias self default ignore d target_alias =
  inl (ValueError (unrecognized_target_msg self target_alias)).
Proof. unfold process_target_alias. now intros ->. Qed.

Lemma process_target_alias_invalid_first self before fa v after d
      target_alias target_type :
  get (aliases_to_types (registered_target_types self)) target_alias
    = Some target_type ->
  (forall fa', In fa' (keys before) ->
               mem fa' (valid_field_aliases_of self target_type) = true) ->
  mem fa (valid_field_aliases_of self target_type) = false ->
  process_target_alias self (before ++ (fa, v) :: after) false d target_alias =
  inl (InvalidFieldException
         (unrecognized_field_msg fa target_type
            (valid_field_aliases_of self target_type))).
Proof.
  intros Hk Hb Hfa. unfold process_target_alias. rewrite Hk.
  now rewrite check_fields_strict_first.
Qed.

Lemma process_target_alias_invalid self default fa d target_alias target_type :
  get (aliases_to_types (registered_target_types self)) target_alias
    = Some target_type ->
  In fa (keys default) ->
  mem fa (valid_field_aliases_of self target_type) = false ->
  exists e, process_target_alias self default false d target_alias = inl e.
Proof.
  intros Hk Hin Hfa. unfold process_target_alias. rewrite Hk.
  destruct (check_fields_strict_raises target_type _ default fa Hin Hfa) as [e ->].
  now exists e.
Qed.

(** An explicit directive with an alias that cannot be processed makes the
    whole call raise. *)
Lemma call_defaults_raises self args all extend items key default target_alias :
  In (IsDict items) args ->
  In (key, default) items ->
  In target_alias (key_targets key) ->
  (forall fields, default = IsDict fields ->
     forall d, exists e,
       process_target_alias self fields false d target_alias = inl e) ->
  exists e, call_defaults self args all extend = inl e.
Proof.
  intros Harg Hitem Hk Hraise.
  assert (Hi : forall d, exists e, process_item self false d (key, default) = inl e).
  { intros d. unfold process_item. simpl. destruct default as [fields|o].
    - apply (rfold_raises_in _ _ target_alias Hk). intros d'. now apply Hraise.
    - eexists. reflexivity. }
  assert (Hd : forall d, exists e,
               _process_defaults self d (IsDict items) false = inl e).
  { intros d. simpl. now apply (rfold_raises_in _ _ (key, default) Hitem). }
  unfold call_defaults. cbv zeta.
  match goal with |- exists e, rbind ?m _ = _ => destruct m as [e|d1] end.
  - now exists e.
  - simpl.
    apply (rfold_raises_in (fun d arg => _process_defaults self d arg false)
                           _ (IsDict items) Harg).
    exact Hd.
Qed.

(** When the call cut just before an alias returns, the call raises what
    that alias raises. *)
Lemma call_defaults_stops_at self pre items_pre key fields items_post post
      before target_alias after all extend d e :
  key_targets key = before ++ target_alias :: after ->
  call_defaults self
    (pre ++ [IsDict (items_pre ++ [(KTuple before, IsDict fields)])]) all extend
    = inr d ->
  (forall d', process_target_alias self fields false d' target_alias = inl e) ->
  call_defaults self
    (pre ++ IsDict (items_pre ++ (key, IsDict fields) :: items_post) :: post)
    all extend
    = inl e.
Proof.
  intros Hkey Hcut Hraise. unfold call_defaults in *. cbv zeta in *.
  match type of Hcut with rbind ?m _ = _ => destruct m as [e1|d1] end;
    [discriminate|].
  simpl rbind in *. rewrite rfold_app in *.
  destruct (rfold (fun d0 arg => _process_defaults self d0 arg false) pre d1)
    as [e2|d2]; [discriminate|].
  simpl in *. rewrite rfold_app in *.
  destruct (rfold (process_item self false) items_pre d2) as [e3|d3]; [discriminate|].
  simpl in *. unfold process_item at 1. unfold process_item at 1 in Hcut.
  simpl in *. rewrite Hkey, rfold_app.
  destruct (rfold (process_target_alias self fields false) before d3)
    as [e4|d4]; [discriminate|].
  simpl. now rewrite Hraise.
Qed.

Lemma registered_alias_found self target_alias :
  In target_alias (aliases (registered_target_types self)) ->
  exists target_type,
    get (aliases_to_types (registered_target_types self)) target_alias
      = Some target_type.
Proof.
  intros Hin.
  destruct (get _ target_alias) as [T|] eqn:E; [now exists T|].
  apply get_None_keys in E. contradiction.
Qed.

(** The expansion of [all] never raises. *)
Lemma all_never_raises self fields d :
  exists d',
    _process_defaults self d
      (IsDict [(KTuple (aliases (registered_target_types self)), IsDict fields)]) true
    = inr d'.
Proof.
  simpl. unfold process_item. simpl.
  assert (H : forall ks d0,
             (forall k, In k ks -> In k (aliases (registered_target_types self))) ->
             exists d', rfold (process_target_alias self fields true) ks d0 = inr d').
  { induction ks as [|k ks IH]; intros d0 Hks; simpl.
    - now exists d0.
    - destruct (registered_alias_found self k) as [T HT]; [apply Hks; now left|].
      unfold process_target_alias at 1. rewrite HT, check_fields_ignore. simpl.
      apply IH. intros k' Hk'. apply Hks. now right. }
  destruct (H (aliases (registered_target_types self)) d) as [d' ->]; [auto|].
  now exists d'.
Qed.

End Raising.

(** ** The list of valid fields in the error message *)

Section SortedSet.

Lemma insert_sorted_In x y xs : In y (insert_sorted x xs) <-> y = x \/ In y xs.
Proof.
  induction xs as [|z zs IH]; simpl.
  - intuition.
  - destruct (String.compare x z) eqn:E; simpl.
    + apply String.compare_eq_iff in E. subst. intuition.
    + intuition.
    + rewrite IH. intuition.
Qed.

Lemma sorted_set_In y xs : In y (sorted_set xs) <-> In y xs.
Proof.
  induction xs as [|x xs IH]; simpl; [tauto|].
  rewrite insert_sorted_In, IH. intuition.
Qed.

Lemma HdRel_insert_sorted x y ys :
  HdRel str_lt y ys -> str_lt y x -> HdRel str_lt y (insert_sorted x ys).
Proof.
  intros Hy Hx. destruct ys as [|z zs]; simpl.
  - now constructor.
  - inversion Hy; subst.
    destruct (String.compare x z); now constructor.
Qed.

Lemma insert_sorted_Sorted x xs :
  Sorted str_lt xs -> Sorted str_lt (insert_sorted x xs).
Proof.
  induction xs as [|y ys IH]; simpl; intros Hs.
  - repeat constructor.
  - inversion Hs; subst.
    destruct (String.compare x y) eqn:E.
    + assumption.
    + constructor; [assumption | now constructor].
    + constructor; [auto|].
      apply HdRel_insert_sorted; auto.
      unfold str_lt. rewrite String.compare_antisym, E. reflexivity.
Qed.

(** [sorted(set(xs))] is strictly increasing and has the elements of [xs]. *)
Lemma sorted_set_Sorted xs : Sorted str_lt (sorted_set xs).
Proof.
  induction xs as [|x xs IH]; simpl; [constructor|].
  now apply insert_sorted_Sorted.
Qed.

End SortedSet.

(** ** Calls that return name only fields the kinds have *)

Section Valid.
Context {R : Runtime}.
Implicit Types (self : BuildFileDefaultsParserState).

Lemma rfold_ok_each {A B} (f : A -> B -> result A) xs a a' :
  rfold f xs a = inr a' ->
  forall x, In x xs -> exists a0 a1, f a0 x = inr a1.
Proof.
  revert a. induction xs as [|y xs IH]; intros a H x Hin; [destruct Hin|].
  simpl in H. destruct (f a y) as [e|a1] eqn:E; simpl in H; [discriminate|].
  destruct Hin as [<-|Hin]; [now exists a, a1 | eauto].
Qed.

Lemma all_merges_valid self all m :
  In m (all_merges self all) -> merge_valid self m.
Proof.
  unfold all_merges. destruct all as [[fields|o]|]; simpl; try tauto.
  rewrite app_nil_r. unfold merges_of_item. simpl. rewrite in_flat_map.
  intros [k [_ Hm]]. unfold merges_of_alias in Hm.
  destruct (get _ k) as [T|] eqn:Hk; [|destruct Hm].
  destruct Hm as [<-|[]]. exists k, T. simpl.
  split; [now apply get_Some_In|]. split; [reflexivity|].
  apply keys_restrict_to.
Qed.

Lemma explicit_merges_valid self args d d' m :
  rfold (fun d0 arg => _process_defaults self d0 arg false) args d = inr d' ->
  In m (explicit_merges self args) -> merge_valid self m.
Proof.
  intros Hok. unfold explicit_merges. rewrite in_flat_map.
  intros [arg [Harg Hm]].
  destruct (rfold_ok_each _ _ _ _ Hok arg Harg) as [d0 [d1 Harg_ok]].
  destruct arg as [items|o]; [|discriminate]. simpl in Harg_ok, Hm.
  rewrite in_flat_map in Hm. destruct Hm as [item [Hitem Hm]].
  destruct (rfold_ok_each _ _ _ _ Harg_ok item Hitem) as [d2 [d3 Hitem_ok]].
  unfold process_item in Hitem_ok. unfold merges_of_item in Hm.
  destruct (snd item) as [fields|o]; [|discriminate].
  rewrite in_flat_map in Hm. destruct Hm as [k [Hk Hm]].
  destruct (rfold_ok_each _ _ _ _ Hitem_ok k Hk) as [d4 [d5 Hk_ok]].
  unfold process_target_alias in Hk_ok. unfold merges_of_alias in Hm.
  destruct (get _ k) as [T|] eqn:HT; [|discriminate].
  destruct Hm as [<-|[]].
  destruct (check_fields T _ false fields) as [e|raw] eqn:E; [discriminate|].
  apply check_fields_strict_ok in E. destruct E as [_ E].
  exists k, T. simpl. split; [now apply get_Some_In|]. split; [reflexivity | exact E].
Qed.

Lemma call_merges_valid self args all extend d m :
  call_defaults self args all extend = inr d ->
  In m (call_merges self args all) -> merge_valid self m.
Proof.
  intros Hok. unfold call_merges. rewrite in_app_iff. intros [Hm|Hm].
  - now apply all_merges_valid in Hm.
  - unfold call_defaults in Hok. cbv zeta in Hok.
    match type of Hok with rbind ?x _ = _ => destruct x as [e|d1] end;
      [discriminate|].
    simpl in Hok. eapply explicit_merges_valid; eauto.
Qed.

Lemma given_fields_without (ms : list (string * dict Any)) kind fa :
  (forall m, In m ms -> fst m = kind -> ~ In fa (keys (snd m))) ->
  last_binding (given_fields ms kind) fa = None.
Proof.
  induction ms as [|[k u] ms IH]; intros H; simpl; auto.
  rewrite last_binding_app, IH by (intros m Hm; apply H; now right).
  destruct (String.eqb_spec kind k) as [->|Hne]; [|reflexivity].
  apply last_binding_None_keys. apply (H (k, u)); simpl; auto.
Qed.

(** In a call that returns, a kind that lacks a field is given no value
    for it. *)
Lemma lacking_field_not_given self args all extend d kind fa :
  call_defaults self args all extend = inr d ->
  kind_lacks self kind fa ->
  last_binding (given_fields (call_merges self args all) kind) fa = None.
Proof.
  intros Hok Hlacks. apply given_fields_without. intros m Hm Hkind Hin.
  destruct (call_merges_valid _ _ _ _ _ _ Hok Hm) as [k [T [HT [Hal Hvalid]]]].
  specialize (Hvalid fa Hin).
  rewrite (Hlacks k T HT) in Hvalid by congruence. discriminate.
Qed.

End Valid.

(** ** Unknown kinds and unknown fields *)

Section Unknown.
Context {R : Runtime}.
Implicit Types (self : BuildFileDefaultsParserState).

Lemma set_defaults_returned self args all extend kwargs self' :
  set_defaults args all extend kwargs self = (inr tt, self') ->
  exists d, call_defaults self args all extend = inr d.
Proof.
  rewrite set_defaults_unfold.
  destruct (call_defaults self args all extend) as [e|d]; [discriminate|].
  now exists d.
Qed.

Lemma set_defaults_raised self args all extend kwargs e :
  call_defaults self args all extend = inl e ->
  set_defaults args all extend kwargs self = (inl e, self).
Proof. intros H. now rewrite set_defaults_unfold, H. Qed.

(** C8, as the code has it.  An explicit directive naming an alias that is
    not in the registry makes the call raise and leaves the engine as it
    was.  The exception is the first one met: when the call cut just before
    that alias returns (and the alias comes with a mapping), it is the
    [ValueError] for an unrecognized target type, naming that alias and the
    address of the scope. *)
Theorem unknown_kind_raises self all extend kwargs target_alias :
  get (aliases_to_types (registered_target_types self)) target_alias = None ->
  (forall args items key default,
     In (IsDict items) args ->
     In (key, default) items ->
     In target_alias (key_targets key) ->
     exists e, set_defaults args all extend kwargs self = (inl e, self))
  /\ (forall pre items_pre key fields items_post post before after self',
        key_targets key = before ++ target_alias :: after ->
        set_defaults
          (pre ++ [IsDict (items_pre ++ [(KTuple before, IsDict fields)])])
          all extend kwargs self = (inr tt, self') ->
        set_defaults
          (pre ++ IsDict (items_pre ++ (key, IsDict fields) :: items_post) :: post)
          all extend kwargs self
        = (inl (ValueError ("Unrecognized target type " ++ target_alias ++ " in "
                            ++ address_str (address self) ++ ".")),
           self)).
Proof.
  intros Hk. split.
  - intros args items key default Harg Hitem Hin.
    destruct (call_defaults_raises self args all extend items key default
                target_alias Harg Hitem Hin) as [e He].
    + intros fields _ d. eexists. now apply process_target_alias_unknown.
    + exists e. now apply set_defaults_raised.
  - intros pre items_pre key fields items_post post before after self' Hkey Hcut.
    apply set_defaults_returned in Hcut. destruct Hcut as [d Hcut].
    apply set_defaults_raised.
    eapply call_defaults_stops_at; eauto.
    intros d'. now apply process_target_alias_unknown.
Qed.

(** C6, as the code has it.  For a field alias [fa] that a registered kind
    does not have: an explicit directive giving [fa] to that kind makes the
    call raise and leaves the engine as it was; the exception is the first
    one met, and when the call cut just before that alias returns and the
    fields before [fa] are valid it is the [InvalidFieldException] naming
    [fa], the kind and its valid field aliases, sorted.  A call with only an
    [all] mapping never raises, and after a call with an [all] mapping that
    returns, a kind that lacks [fa] has no default for it, unless [extend]
    is true and it had one before. *)
Theorem unknown_field self extend kwargs target_alias target_type fa :
  get (aliases_to_types (registered_target_types self)) target_alias
    = Some target_type ->
  mem fa (valid_field_aliases_of self target_type) = false ->
  (forall args all items key fields,
     In (IsDict items) args ->
     In (key, IsDict fields) items ->
     In target_alias (key_targets key) ->
     In fa (keys fields) ->
     exists e, set_defaults args all extend kwargs self = (inl e, self))
  /\ (forall pre items_pre key first v rest items_post post before after all self',
        key_targets key = before ++ target_alias :: after ->
        (forall fa', In fa' (keys first) ->
                     mem fa' (valid_field_aliases_of self target_type) = true) ->
        set_defaults
          (pre ++ [IsDict (items_pre
                           ++ [(KTuple before, IsDict (first ++ (fa, v) :: rest))])])
          all extend kwargs self = (inr tt, self') ->
        exists names,
          Sorted str_lt names
          /\ (forall x, In x names <-> In x (valid_field_aliases_of self target_type))
          /\ set_defaults
               (pre ++ IsDict (items_pre
                               ++ (key, IsDict (first ++ (fa, v) :: rest)) :: items_post)
                    :: post)
               all extend kwargs self
             = (inl (InvalidFieldException
                       ("Unrecognized field `" ++ fa ++ "` for target "
                        ++ alias target_type ++ ". " ++ "Valid fields are: "
                        ++ join ", " names ++ ".")),
                self))
  /\ (forall fields,
        exists self',
          set_defaults [] (Some (IsDict fields)) extend kwargs self = (inr tt, self'))
  /\ (forall args fields self',
        kind_lacks self (alias target_type) fa ->
        (extend = true -> well_formed self) ->
        set_defaults args (Some (IsDict fields)) extend kwargs self = (inr tt, self') ->
        get (defaults_for self' (alias target_type)) fa =
        if extend then get (defaults_for self (alias target_type)) fa else None).
Proof.
  intros Hk Hfa. split; [|split; [|split]].
  - intros args all items key fields Harg Hitem Hin Hfield.
    destruct (call_defaults_raises self args all extend items key (IsDict fields)
                target_alias Harg Hitem Hin) as [e He].
    + intros fields' [= <-] d.
      now apply (process_target_alias_invalid self fields fa d target_alias target_type).
    + exists e. now apply set_defaults_raised.
  - intros pre items_pre key first v rest items_post post before after all self'
           Hkey Hfirst Hcut.
    exists (sorted_set (valid_field_aliases_of self target_type)).
    split; [apply sorted_set_Sorted|]. split; [intros x; apply sorted_set_In|].
    apply set_defaults_returned in Hcut. destruct Hcut as [d Hcut].
    apply set_defaults_raised.
    eapply call_defaults_stops_at; eauto.
    intros d'.
    now apply (process_target_alias_invalid_first self first fa v rest d'
                 target_alias target_type).
  - intros fields. rewrite set_defaults_unfold. unfold call_defaults. cbv zeta.
    match goal with
    | |- context [_process_defaults self ?d0 ?a true] =>
        destruct (all_never_raises self fields d0) as [d' Hd'];
        destruct (_process_defaults self d0 a true) as [e|d1] eqn:E
    end.
    + discriminate (eq_trans (eq_sym E) Hd').
    + simpl. eexists. reflexivity.
  - intros args fields self' Hlacks Hwf Hcall.
    destruct (set_defaults_returned _ _ _ _ _ _ Hcall) as [d Hd].
    rewrite (set_defaults_named _ _ _ _ _ _ _ Hwf Hcall
               (all_names_call self args fields _ _ Hk)).
    rewrite get_update, (lacking_field_not_given _ _ _ _ _ _ fa Hd Hlacks).
    now destruct extend.
Qed.

End Unknown.

(** ** Freezing, field by field *)

Section Freeze.
Context {R : Runtime}.
Implicit Types (self : BuildFileDefaultsParserState).
Implicit Types (acc out : dict ImmutableValue).

Lemma emit_skips self fa raw field_types acc :
  (forall field_type, In field_type field_types -> names_field field_type fa = false) ->
  rfold (emit self (fa, raw)) field_types acc = inr acc.
Proof.
  revert acc. induction field_types as [|ft fts IH]; intros acc H; simpl; auto.
  unfold emit at 1. simpl. rewrite (H ft) by now left. simpl.
  apply IH. intros ft' Hin. apply H. now right.
Qed.

(** What one stored default adds to the frozen fields. *)
Lemma emit_all self item field_types acc out :
  rfold (emit self item) field_types acc = inr out ->
  (forall a v, get acc a = Some v -> exists w, get out a = Some w)
  /\ (forall field_type,
        In field_type field_types -> names_field field_type (fst item) = true ->
        exists w, get out (field_alias field_type) = Some w)
  /\ (forall a v, get out a = Some v ->
        get acc a = Some v
        \/ exists field_type,
             In field_type field_types
             /\ names_field field_type (fst item) = true
             /\ field_alias field_type = a
             /\ compute_value field_type (snd item) (address self) = inr v).
Proof.
  revert acc. induction field_types as [|ft fts IH]; intros acc; simpl.
  - intros [= <-]. split; [eauto|]. split; [intros ? []|]. auto.
  - unfold emit at 1.
    destruct (names_field ft (fst item)) eqn:En.
    + destruct (compute_value ft (snd item) (address self)) as [e|v0] eqn:Ev;
        simpl; [discriminate|].
      intros H. destruct (IH _ H) as [K1 [K2 K3]]. split; [|split].
      * intros a v Ha.
        destruct (String.eqb_spec (field_alias ft) a) as [<-|Hne].
        -- apply (K1 _ v0), get_set_same.
        -- apply (K1 a v). now rewrite get_set_other.
      * intros ft' [<-|Hin] Hn; [|now apply K2].
        apply (K1 _ v0), get_set_same.
      * intros a v Ha. destruct (K3 a v Ha) as [Hacc|[ft' [Hin [Hn [Hal Hv]]]]].
        -- destruct (String.eqb_spec (field_alias ft) a) as [<-|Hne].
           ++ rewrite get_set_same in Hacc. injection Hacc as <-.
              right. exists ft. auto.
           ++ rewrite get_set_other in Hacc by assumption. now left.
        -- right. exists ft'. auto.
    + simpl. intros H. destruct (IH _ H) as [K1 [K2 K3]]. split; [|split]; auto.
      * intros ft' [<-|Hin] Hn; [congruence | now apply K2].
      * intros a v Ha. destruct (K3 a v Ha) as [Hacc|[ft' [Hin [Hn [Hal Hv]]]]];
          [now left|].
        right. exists ft'. auto.
Qed.

(** The same for all the stored defaults of a kind. *)
Lemma emit_fields self field_types fields acc out :
  rfold (fun acc0 item => rfold (emit self item) field_types acc0) fields acc = inr out ->
  (forall a v, get acc a = Some v -> exists w, get out a = Some w)
  /\ (forall fa raw field_type,
        In (fa, raw) fields -> In field_type field_types ->
        names_field field_type fa = true ->
        exists w, get out (field_alias field_type) = Some w)
  /\ (forall a v, get out a = Some v ->
        get acc a = Some v \/ emitted self field_types fields a v).
Proof.
  revert acc. induction fields as [|item fields IH]; intros acc; simpl.
  - intros [= <-]. split; [eauto|]. split; [intros ? ? ? []|]. auto.
  - destruct (rfold (emit self item) field_types acc) as [e|acc1] eqn:E;
      simpl; [discriminate|].
    intros H. destruct (IH _ H) as [K1 [K2 K3]].
    destruct (emit_all _ _ _ _ _ E) as [J1 [J2 J3]].
    split; [|split].
    + intros a v Ha. destruct (J1 a v Ha) as [w Hw]. eauto.
    + intros fa raw ft [Heq|Hin] Hft Hn.
      * subst item. destruct (J2 ft Hft Hn) as [w Hw]. eauto.
      * eauto.
    + intros a v Ha. destruct (K3 a v Ha) as [Hacc|[fa [raw [ft Hem]]]].
      * destruct (J3 a v Hacc) as [Hacc0|[ft [Hin [Hn [Hal Hv]]]]]; [now left|].
        right. exists (fst item), (snd item), ft.
        rewrite <- surjective_pairing. simpl. auto.
      * right. exists fa, raw, ft. simpl. intuition.
Qed.

Lemma frozen_fields_registered self target_alias target_type fields :
  get (aliases_to_types (registered_target_types self)) target_alias
    = Some target_type ->
  frozen_fields self target_alias fields =
  rfold (fun acc item =>
           rfold (emit self item)
                 (class_field_types target_type (union_membership self)) acc)
        fields [].
Proof. unfold frozen_fields. now intros ->. Qed.

(** A stored default that names no field type of the kind adds nothing. *)
Lemma frozen_fields_pop self target_alias target_type fields fa :
  get (aliases_to_types (registered_target_types self)) target_alias
    = Some target_type ->
  (forall field_type,
     In field_type (class_field_types target_type (union_membership self)) ->
     names_field field_type fa = false) ->
  frozen_fields self target_alias (pop fields fa) =
  frozen_fields self target_alias fields.
Proof.
  intros Hk Hno. rewrite !(frozen_fields_registered _ _ _ _ Hk).
  generalize (@nil (string * ImmutableValue)) as acc.
  induction fields as [|[k v] fields IH]; intros acc; simpl; auto.
  destruct (String.eqb_spec fa k) as [<-|Hne]; simpl.
  - rewrite (emit_skips self fa v _ acc Hno). simpl. apply IH.
  - destruct (rfold (emit self (k, v)) _ acc); simpl; auto.
Qed.

Lemma rmap_get {A B} (h : string -> A -> result B) ds tbl k v :
  rmap (fun item => rbind (h (fst item) (snd item))
                          (fun y => rret (fst item, y))) ds = inr tbl ->
  get ds k = Some v ->
  exists y, h k v = inr y /\ get tbl k = Some y.
Proof.
  revert tbl. induction ds as [|[k0 v0] ds IH]; intros tbl; simpl; [discriminate|].
  destruct (h k0 v0) as [e|y0] eqn:E; simpl; [discriminate|].
  destruct (rmap _ ds) as [e|tbl'] eqn:E'; simpl; [discriminate|].
  intros [= <-]. simpl.
  destruct (String.eqb_spec k k0) as [->|Hne].
  - intros [= <-]. now exists y0.
  - intros Hget. now apply IH.
Qed.

Lemma rmap_set_same {A B} (g : string * A -> result B) ds k v v' :
  get ds k = Some v -> g (k, v') = g (k, v) ->
  rmap g (set ds k v') = rmap g ds.
Proof.
  intros Hget Hg. induction ds as [|[k0 v0] ds IH]; simpl in *; [discriminate|].
  destruct (String.eqb_spec k k0) as [->|Hne]; simpl.
  - injection Hget as ->. now rewrite Hg.
  - now rewrite IH.
Qed.

Lemma names_field_false (field_type : FieldType) fa :
  fa <> field_alias field_type ->
  deprecated_alias field_type <> Some fa ->
  names_field field_type fa = false.
Proof.
  intros H1 H2. unfold names_field.
  destruct (String.eqb_spec fa (field_alias field_type)); [contradiction|].
  destruct (deprecated_alias field_type) as [d|]; simpl; auto.
  destruct (String.eqb_spec fa d); congruence.
Qed.

Lemma names_field_deprecated (field_type : FieldType) fa :
  deprecated_alias field_type = Some fa -> names_field field_type fa = true.
Proof.
  intros H. unfold names_field. rewrite H, String.eqb_refl. apply orb_true_r.
Qed.

(** C10. When [get_frozen_defaults] returns: a default stored under the
    deprecated alias of a field type of its kind appears in the frozen table
    under the alias of that field type, with a coerced value of a stored
    default naming a field type of that alias.  A stored alias that is
    neither the alias nor the deprecated alias of any field type of its kind
    is left out: freezing gives what it gives without that default, raising
    or not, and the frozen fields of the kind have no such key. *)
Theorem freeze_renames_and_drops self target_alias target_type fields :
  get (defaults self) target_alias = Some fields ->
  get (aliases_to_types (registered_target_types self)) target_alias
    = Some target_type ->
  (forall tbl fa raw field_type,
     fst (get_frozen_defaults self) = inr tbl ->
     In (fa, raw) fields ->
     In field_type (class_field_types target_type (union_membership self)) ->
     deprecated_alias field_type = Some fa ->
     exists frozen v,
       get tbl target_alias = Some frozen
       /\ get frozen (field_alias field_type) = Some v
       /\ emitted self (class_field_types target_type (union_membership self))
                  fields (field_alias field_type) v)
  /\ (forall fa,
        (forall field_type,
           In field_type (class_field_types target_type (union_membership self)) ->
           fa <> field_alias field_type /\ deprecated_alias field_type <> Some fa) ->
        fst (get_frozen_defaults
               (with_defaults self (set (defaults self) target_alias (pop fields fa))))
        = fst (get_frozen_defaults self)
        /\ forall tbl frozen,
             fst (get_frozen_defaults self) = inr tbl ->
             get tbl target_alias = Some frozen ->
             get frozen fa = None).
Proof.
  intros Hfields Hk. split.
  - intros tbl fa raw ft Htbl Hin Hft Hdep.
    unfold get_frozen_defaults, bind, read, lift in Htbl. simpl in Htbl.
    destruct (rmap_get (frozen_fields self) _ _ _ _ Htbl Hfields) as [frozen [Hfr Hget]].
    rewrite (frozen_fields_registered _ _ _ _ Hk) in Hfr.
    destruct (emit_fields _ _ _ _ _ Hfr) as [_ [K2 K3]].
    destruct (K2 fa raw ft Hin Hft (names_field_deprecated _ _ Hdep)) as [v Hv].
    exists frozen, v. split; [assumption|]. split; [assumption|].
    destruct (K3 _ _ Hv) as [Hnil|Hem]; [discriminate | assumption].
  - intros fa Hno.
    assert (Hno' : forall ft,
               In ft (class_field_types target_type (union_membership self)) ->
               names_field ft fa = false).
    { intros ft Hft. destruct (Hno ft Hft). now apply names_field_false. }
    split.
    + unfold get_frozen_defaults, bind, read, lift. simpl.
      apply (rmap_set_same
               (fun item => rbind (frozen_fields self (fst item) (snd item))
                                  (fun y => rret (fst item, y)))
               _ _ _ _ Hfields).
      simpl. now rewrite (frozen_fields_pop _ _ _ _ _ Hk Hno').
    + intros tbl frozen Htbl Hget.
      unfold get_frozen_defaults, bind, read, lift in Htbl. simpl in Htbl.
      destruct (rmap_get (frozen_fields self) _ _ _ _ Htbl Hfields) as [fr [Hfr Hget']].
      assert (fr = frozen) by congruence. subst fr.
      rewrite (frozen_fields_registered _ _ _ _ Hk) in Hfr.
      destruct (emit_fields _ _ _ _ _ Hfr) as [_ [_ K3]].
      destruct (get frozen fa) as [v|] eqn:Ev; [|reflexivity].
      destruct (K3 _ _ Ev) as [Hnil|[fa' [raw [ft [_ [Hft [_ [Hal _]]]]]]]];
        [discriminate|].
      destruct (Hno ft Hft) as [Hne _]. congruence.
Qed.

End Freeze.

(** ** More on calls that return *)

Section Returning.
Context {R : Runtime}.
Implicit Types (self : BuildFileDefaultsParserState).

Lemma pop_absent {V} (w : dict V) k : get w k = None -> pop w k = w.
Proof.
  induction w as [|[k' v'] w IH]; simpl; auto.
  destruct (String.eqb k k'); [discriminate|].
  intros H. now rewrite IH.
Qed.

Lemma set_same {V} (w : dict V) k m : get w k = Some m -> set w k m = w.
Proof.
  induction w as [|[k' v'] w IH]; simpl; [discriminate|].
  destruct (String.eqb_spec k k') as [->|Hne].
  - now intros [= ->].
  - intros H. now rewrite IH.
Qed.

Lemma In_get_NoDup {V} (d : dict V) k m :
  NoDup (keys d) -> In (k, m) d -> get d k = Some m.
Proof.
  induction d as [|[k' v'] d IH]; simpl; [tauto|].
  intros Hnd. inversion Hnd as [|? ? Hk Hd]; subst.
  intros [Heq|Hin].
  - injection Heq as -> ->. now rewrite String.eqb_refl.
  - destruct (String.eqb_spec k k') as [->|Hne]; [|auto].
    exfalso. apply Hk. unfold keys. now apply (in_map fst) in Hin.
Qed.

(** The last loop changes nothing when the working defaults already hold
    what it stores. *)
Lemma store_all_fixed (d w : dict (dict Any)) :
  (forall k m, In (k, m) d ->
     get w k = if is_empty m then None else Some m) ->
  store_all d w = w.
Proof.
  induction d as [|[k m] d IH]; intros H; simpl; auto.
  unfold store_all in *. simpl.
  pose proof (H k m (or_introl eq_refl)) as Hk.
  destruct (is_empty m).
  - rewrite (pop_absent _ _ Hk). apply IH. intros k' m' Hin. apply H. now right.
  - rewrite (set_same _ _ _ Hk). apply IH. intros k' m' Hin. apply H. now right.
Qed.

(** What [_process_defaults] does depends on [self] only through the address,
    the registry and the union membership. *)
Lemma call_defaults_frame self w args all :
  call_defaults (with_defaults self w) args all false = call_defaults self args all false.
Proof. reflexivity. Qed.

Lemma call_merges_frame self w args all :
  call_merges (with_defaults self w) args all = call_merges self args all.
Proof. reflexivity. Qed.

(** X1. A call that returns leaves no kind with an empty mapping among the
    kinds it names, and with [extend] true among all kinds: such entries are
    dropped, not kept as empty placeholders. *)
Theorem set_defaults_leaves_no_empty_mapping self args all extend kwargs self'
        kind fields :
  (extend = true -> well_formed self) ->
  set_defaults args all extend kwargs self = (inr tt, self') ->
  mem kind (named_kinds (call_merges self args all)) = true \/ extend = true ->
  get (defaults self') kind = Some fields ->
  fields <> [].
Proof.
  intros Hwf Hcall Hcase.
  rewrite (set_defaults_returns _ _ _ _ _ _ Hwf Hcall kind).
  destruct (mem kind (named_kinds (call_merges self args all))) eqn:Hnamed.
  - cbv zeta.
    match goal with |- context [is_empty ?m] => destruct (is_empty m) eqn:Em end;
      [discriminate|].
    intros [= <-] Hnil. rewrite Hnil in Em. discriminate.
  - destruct Hcase as [Hc | ->]; [discriminate|].
    destruct (get (defaults self) kind) as [m|]; [|discriminate].
    destruct (is_empty m) eqn:Em; [discriminate|].
    intros [= <-] Hnil. rewrite Hnil in Em. discriminate.
Qed.

(** X2. A call with [extend] true and nothing else returns and only drops the
    kinds whose mapping is empty; when there is none the engine is exactly as
    it was. *)
Theorem extend_without_directives self kwargs :
  well_formed self ->
  exists self',
    set_defaults [] None true kwargs self = (inr tt, self')
    /\ (forall kind,
          get (defaults self') kind =
          match get (defaults self) kind with
          | Some m => if is_empty m then None else Some m
          | None => None
          end)
    /\ ((forall kind m, get (defaults self) kind = Some m -> m <> []) ->
        self' = self).
Proof.
  intros Hwf.
  exists (with_defaults self (store_all (defaults self) (defaults self))).
  assert (Hcall : set_defaults [] None true kwargs self
                  = (inr tt, with_defaults self (store_all (defaults self) (defaults self)))).
  { rewrite set_defaults_unfold. unfold call_defaults. simpl.
    now rewrite copy_items. }
  split; [exact Hcall|]. split.
  - intros kind.
    rewrite (set_defaults_returns _ _ _ _ _ _ (fun _ => Hwf) Hcall kind).
    reflexivity.
  - intros Hne. rewrite store_all_fixed; [apply with_defaults_same|].
    intros k m Hin. pose proof (In_get_NoDup _ _ _ Hwf Hin) as Hget.
    rewrite Hget. destruct m; [|reflexivity].
    exfalso. now apply (Hne k []).
Qed.

(** X3. A call with [extend] true that returns: a kind the call names keeps
    the fields it had and takes the fields the call gives it, the call's value
    winning for a field given again; a kind the call does not name keeps its
    entry unless its mapping is empty. *)
Theorem extend_merges_named_kinds self args all kwargs self' :
  well_formed self ->
  set_defaults args all true kwargs self = (inr tt, self') ->
  forall kind,
    (mem kind (named_kinds (call_merges self args all)) = true ->
     defaults_for self' kind
     = update (defaults_for self kind) (given_fields (call_merges self args all) kind)
     /\ forall fa,
          get (defaults_for self' kind) fa =
          match last_binding (given_fields (call_merges self args all) kind) fa with
          | Some v => Some v
          | None => get (defaults_for self kind) fa
          end)
    /\ (mem kind (named_kinds (call_merges self args all)) = false ->
        get (defaults self') kind =
        match get (defaults self) kind with
        | Some m => if is_empty m then None else Some m
        | None => None
        end).
Proof.
  intros Hwf Hcall kind. split; intros Hnamed.
  - pose proof (set_defaults_named _ _ _ _ _ _ kind (fun _ => Hwf) Hcall Hnamed) as Hfor.
    split; [exact Hfor|]. intros fa. now rewrite Hfor, get_update.
  - rewrite (set_defaults_returns _ _ _ _ _ _ (fun _ => Hwf) Hcall kind), Hnamed.
    reflexivity.
Qed.

Lemma explicit_merges_app self args1 args2 :
  explicit_merges self (args1 ++ args2)
  = explicit_merges self args1 ++ explicit_merges self args2.
Proof. unfold explicit_merges. apply flat_map_app. Qed.

(** X4. Directive order: in a call that returns, a field that the later
    directives give to a kind holds the value they give last, whatever the
    earlier directives, the [all] mapping and the working defaults hold. *)
Theorem later_directive_wins self args1 args2 all extend kwargs self' kind fa y :
  (extend = true -> well_formed self) ->
  set_defaults (args1 ++ args2) all extend kwargs self = (inr tt, self') ->
  last_binding (given_fields (explicit_merges self args2) kind) fa = Some y ->
  get (defaults_for self' kind) fa = Some y.
Proof.
  intros Hwf Hcall Hy.
  assert (Hnamed : mem kind (named_kinds (call_merges self (args1 ++ args2) all)) = true).
  { unfold call_merges. rewrite explicit_merges_app, !named_kinds_app, !mem_app.
    rewrite (given_fields_named _ _ _ _ Hy). now rewrite !orb_true_r. }
  rewrite (set_defaults_named _ _ _ _ _ _ kind Hwf Hcall Hnamed), get_update.
  unfold call_merges.
  now rewrite explicit_merges_app, !given_fields_app, !last_binding_app, Hy.
Qed.

(** X5. A call with [extend] false that returns can be repeated without
    effect: the same call on the engine it left returns and leaves the engine
    as it is. *)
Theorem set_defaults_twice self args all kwargs self' :
  set_defaults args all false kwargs self = (inr tt, self') ->
  set_defaults args all false kwargs self' = (inr tt, self').
Proof.
  rewrite set_defaults_unfold.
  destruct (call_defaults self args all false) as [e|d] eqn:E; [discriminate|].
  intros [= <-].
  rewrite set_defaults_unfold, call_defaults_frame, E. simpl.
  f_equal. unfold with_defaults. simpl. f_equal.
  pose proof (call_defaults_ok _ _ _ _ _ E) as Hd. simpl in Hd.
  assert (Hnd : NoDup (keys d)).
  { subst d. apply NoDup_apply_merges. constructor. }
  apply store_all_fixed. intros k m Hin.
  rewrite (get_store_all _ _ _ Hnd).
  now rewrite (In_get_NoDup _ _ _ Hnd Hin).
Qed.

End Returning.

(** ** Which calls return, and what the others raise *)

Section Validation.
Context {R : Runtime}.
Implicit Types (self : BuildFileDefaultsParserState).

Lemma rfold_returned {A B} (f : A -> B -> result A) (p : B -> bool) xs a :
  (forall a0 x, returned (f a0 x) = p x) ->
  returned (rfold f xs a) = forallb p xs.
Proof.
  intros H. revert a. induction xs as [|x xs IH]; intros a; simpl; auto.
  rewrite <- (H a x). destruct (f a x); simpl; auto.
Qed.

Lemma rfold_raised {A B} (f : A -> B -> result A) xs a e :
  rfold f xs a = inl e -> exists x a0, In x xs /\ f a0 x = inl e.
Proof.
  revert a. induction xs as [|x xs IH]; intros a; simpl; [discriminate|].
  destruct (f a x) as [e'|a1] eqn:E; simpl.
  - intros [= ->]. exists x, a. auto.
  - intros H. destruct (IH _ H) as [y [a0 [Hin Hy]]]. exists y, a0. auto.
Qed.

Lemma rfold_outcome {A B} (f : A -> B -> result A) xs a a' :
  (forall a0 a1 x, outcome (f a0 x) = outcome (f a1 x)) ->
  outcome (rfold f xs a) = outcome (rfold f xs a').
Proof.
  intros H. revert a a'. induction xs as [|x xs IH]; intros a a'; simpl; auto.
  pose proof (H a a' x) as Hx.
  destruct (f a x), (f a' x); simpl in *; try discriminate; auto.
Qed.

Lemma forallb_false_In {A} (p : A -> bool) xs x :
  In x xs -> p x = false -> forallb p xs = false.
Proof.
  intros Hin Hp. destruct (forallb p xs) eqn:E; auto.
  rewrite forallb_forall in E. rewrite (E x Hin) in Hp. discriminate.
Qed.

Lemma check_fields_strict_returned target_type valid default :
  returned (check_fields target_type valid false default)
  = forallb (fun fa => mem fa valid) (keys default).
Proof.
  unfold check_fields. apply rfold_returned.
  intros raw fa. now destruct (mem fa valid).
Qed.

Lemma check_fields_raised target_type valid ignore default e :
  check_fields target_type valid ignore default = inl e ->
  ignore = false
  /\ exists fa, In fa (keys default) /\ mem fa valid = false
                /\ e = InvalidFieldException (unrecognized_field_msg fa target_type valid).
Proof.
  unfold check_fields. intros H.
  destruct (rfold_raised _ _ _ _ H) as [fa [raw [Hin Hfa]]].
  destruct (mem fa valid) eqn:Em; simpl in Hfa; [discriminate|].
  destruct ignore; [discriminate|]. injection Hfa as <-.
  split; auto. exists fa. auto.
Qed.

Lemma process_target_alias_returned self fields d target_alias :
  returned (process_target_alias self fields false d target_alias)
  = alias_valid self fields target_alias.
Proof.
  unfold process_target_alias, alias_valid.
  destruct (get _ target_alias) as [T|]; [|reflexivity].
  rewrite <- (check_fields_strict_returned T).
  now destruct (check_fields T _ false fields).
Qed.

Lemma process_item_returned self d item :
  returned (process_item self false d item) = item_valid self item.
Proof.
  unfold process_item, item_valid. destruct (snd item) as [fields|o]; [|reflexivity].
  apply rfold_returned. intros d0 k. apply process_target_alias_returned.
Qed.

Lemma _process_defaults_returned self d directive :
  returned (_process_defaults self d directive false) = directive_valid self directive.
Proof.
  destruct directive as [items|o]; [|reflexivity]. simpl.
  apply rfold_returned. intros d0 item. apply process_item_returned.
Qed.

Lemma call_defaults_returned self args all extend :
  returned (call_defaults self args all extend) = call_valid self args all.
Proof.
  unfold call_defaults, call_valid. cbv zeta.
  match goal with |- context [rbind ?m _] => destruct m as [e|d1] eqn:E end.
  - simpl. destruct all as [[fields|o]|]; simpl; auto.
    + destruct (all_never_raises self fields
                  (if negb extend then []
                   else map (fun kv => (fst kv, snd kv)) (defaults self)))
        as [d' Hd'].
      discriminate (eq_trans (eq_sym E) Hd').
    + discriminate.
  - simpl rbind.
    assert (Hall : all_is_mapping all = true).
    { destruct all as [[fields|o]|]; auto. discriminate. }
    rewrite Hall. simpl. apply rfold_returned.
    intros d0 arg. apply _process_defaults_returned.
Qed.

Lemma set_defaults_outcome self args all extend kwargs :
  fst (set_defaults args all extend kwargs self)
  = outcome (call_defaults self args all extend).
Proof.
  rewrite set_defaults_unfold. now destruct (call_defaults self args all extend).
Qed.

Lemma set_defaults_valid_returns self args all extend kwargs :
  call_valid self args all = true ->
  exists self', set_defaults args all extend kwargs self = (inr tt, self').
Proof.
  intros Hv. pose proof (call_defaults_returned self args all extend) as Hret.
  rewrite Hv in Hret. rewrite set_defaults_unfold.
  destruct (call_defaults self args all extend); [discriminate|].
  eexists. reflexivity.
Qed.

Lemma set_defaults_returned_is_valid self args all extend kwargs self' :
  set_defaults args all extend kwargs self = (inr tt, self') ->
  call_valid self args all = true.
Proof.
  intros H. destruct (set_defaults_returned _ _ _ _ _ _ H) as [d Hd].
  now rewrite <- (call_defaults_returned self args all extend), Hd.
Qed.

(** X6. A call returns exactly when it is well formed: [all], when given, is
    a mapping, every positional argument is a mapping whose values are
    mappings, every alias named is registered and has every field given to
    it.  The working defaults and [extend] play no part. *)
Theorem set_defaults_returns_iff_valid self args all extend kwargs :
  returned (fst (set_defaults args all extend kwargs self)) = call_valid self args all.
Proof.
  rewrite set_defaults_outcome, <- (call_defaults_returned self args all extend).
  now destruct (call_defaults self args all extend).
Qed.

Lemma process_target_alias_outcome self fields ignore d d' target_alias :
  outcome (process_target_alias self fields ignore d target_alias)
  = outcome (process_target_alias self fields ignore d' target_alias).
Proof.
  unfold process_target_alias.
  destruct (get _ target_alias) as [T|]; [|reflexivity].
  now destruct (check_fields T _ ignore fields).
Qed.

Lemma _process_defaults_outcome self directive ignore d d' :
  outcome (_process_defaults self d directive ignore)
  = outcome (_process_defaults self d' directive ignore).
Proof.
  destruct directive as [items|o]; [|reflexivity]. simpl.
  apply rfold_outcome. intros d0 d1 item. unfold process_item.
  destruct (snd item) as [fields|o]; [|reflexivity].
  apply rfold_outcome. intros d2 d3 k. apply process_target_alias_outcome.
Qed.

Lemma call_outcome_from self args all (d0 d0' : dict (dict Any)) :
  outcome (rbind (match all with
                  | Some a =>
                      _process_defaults self d0
                        (IsDict [(KTuple (aliases (registered_target_types self)), a)])
                        true
                  | None => rret d0
                  end)
                 (rfold (fun d arg => _process_defaults self d arg false) args))
  = outcome (rbind (match all with
                    | Some a =>
                        _process_defaults self d0'
                          (IsDict [(KTuple (aliases (registered_target_types self)), a)])
                          true
                    | None => rret d0'
                    end)
                   (rfold (fun d arg => _process_defaults self d arg false) args)).
Proof.
  assert (Hargs : forall d d',
             outcome (rfold (fun d1 arg => _process_defaults self d1 arg false) args d)
             = outcome (rfold (fun d1 arg => _process_defaults self d1 arg false) args d')).
  { intros d d'. apply rfold_outcome. intros d1 d2 arg.
    apply _process_defaults_outcome. }
  destruct all as [a|].
  - pose proof (_process_defaults_outcome self
                  (IsDict [(KTuple (aliases (registered_target_types self)), a)])
                  true d0 d0') as Hall.
    destruct (_process_defaults self d0 _ true) as [e|d1],
             (_process_defaults self d0' _ true) as [e'|d1'];
      simpl in *; try discriminate; auto.
  - simpl. apply Hargs.
Qed.

Lemma call_defaults_outcome self args all extend extend' w :
  outcome (call_defaults self args all extend)
  = outcome (call_defaults (with_defaults self w) args all extend').
Proof. unfold call_defaults. cbv zeta. apply (call_outcome_from self). Qed.

(** X7. Whether a call returns, and which exception it raises when it does
    not, depends neither on the working defaults nor on [extend] nor on the
    extra keywords. *)
Theorem set_defaults_outcome_independent self args all extend kwargs extend' kwargs' w :
  fst (set_defaults args all extend kwargs self)
  = fst (set_defaults args all extend' kwargs' (with_defaults self w)).
Proof.
  rewrite !set_defaults_outcome. apply call_defaults_outcome.
Qed.

End Validation.

(** ** The exceptions of [set_defaults] *)

Section Exceptions.
Context {R : Runtime}.
Implicit Types (self : BuildFileDefaultsParserState).

Lemma process_target_alias_raised self fields ignore d target_alias e :
  process_target_alias self fields ignore d target_alias = inl e ->
  (get (aliases_to_types (registered_target_types self)) target_alias = None
   /\ e = ValueError (unrecognized_target_msg self target_alias))
  \/ (ignore = false
      /\ exists target_type fa,
           get (aliases_to_types (registered_target_types self)) target_alias
             = Some target_type
           /\ In fa (keys fields)
           /\ mem fa (valid_field_aliases_of self target_type) = false
           /\ e = InvalidFieldException
                    (unrecognized_field_msg fa target_type
                       (valid_field_aliases_of self target_type))).
Proof.
  unfold process_target_alias.
  destruct (get _ target_alias) as [T|] eqn:Hk.
  - destruct (check_fields T _ ignore fields) as [e'|raw] eqn:E; simpl; [|discriminate].
    intros [= <-]. right.
    destruct (check_fields_raised _ _ _ _ _ E) as [Hi [fa [Hin [Hfa He]]]].
    split; auto. exists T, fa. auto.
  - intros [= <-]. now left.
Qed.

Lemma process_item_raised self ignore d item e :
  process_item self ignore d item = inl e ->
  (exists o, snd item = NotDict o /\ e = ValueError (invalid_values_msg self (fst item) o))
  \/ exists fields target_alias d0,
       snd item = IsDict fields
       /\ In target_alias (key_targets (fst item))
       /\ process_target_alias self fields ignore d0 target_alias = inl e.
Proof.
  unfold process_item. destruct (snd item) as [fields|o].
  - intros H. right.
    destruct (rfold_raised _ _ _ _ H) as [k [d0 [Hin Hk]]].
    exists fields, k, d0. auto.
  - intros [= <-]. left. now exists o.
Qed.

Lemma all_item_raised self a d e :
  _process_defaults self d
    (IsDict [(KTuple (aliases (registered_target_types self)), a)]) true = inl e ->
  exists o, a = NotDict o
            /\ e = ValueError
                     (invalid_values_msg self
                        (KTuple (aliases (registered_target_types self))) o).
Proof.
  destruct a as [fields|o].
  - intros H. destruct (all_never_raises self fields d) as [d' Hd'].
    discriminate (eq_trans (eq_sym H) Hd').
  - intros [= <-]. now exists o.
Qed.

(** X8. The exceptions of [set_defaults] are these four and no other: a
    positional argument that is not a mapping, a value (or [all]) that is not
    a mapping, an alias of a positional directive that is not registered, a
    field of a positional directive that the target type does not have. *)
Theorem set_defaults_exceptions self args all extend kwargs e self' :
  set_defaults args all extend kwargs self = (inl e, self') ->
  (exists o, In (NotDict o) args /\ e = ValueError (expected_dict_msg self o))
  \/ (exists key o,
        In (key, NotDict o) (call_items self args all)
        /\ e = ValueError (invalid_values_msg self key o))
  \/ (exists key fields target_alias,
        In (key, IsDict fields) (call_items self args None)
        /\ In target_alias (key_targets key)
        /\ get (aliases_to_types (registered_target_types self)) target_alias = None
        /\ e = ValueError (unrecognized_target_msg self target_alias))
  \/ (exists key fields target_alias target_type fa,
        In (key, IsDict fields) (call_items self args None)
        /\ In target_alias (key_targets key)
        /\ get (aliases_to_types (registered_target_types self)) target_alias
           = Some target_type
        /\ In fa (keys fields)
        /\ mem fa (valid_field_aliases_of self target_type) = false
        /\ e = InvalidFieldException
                 (unrecognized_field_msg fa target_type
                    (valid_field_aliases_of self target_type))).
Proof.
  rewrite set_defaults_unfold.
  destruct (call_defaults self args all extend) as [e'|d] eqn:E; [|discriminate].
  intros [= <- _]. unfold call_defaults in E. cbv zeta in E.
  match type of E with rbind ?m _ = _ => destruct m as [e0|d1] eqn:Eall end.
  - simpl in E. injection E as <-.
    destruct all as [a|]; [|discriminate].
    destruct (all_item_raised _ _ _ _ Eall) as [o [-> ->]].
    right. left. eexists. exists o. split; [|reflexivity]. simpl. now left.
  - simpl in E. destruct (rfold_raised _ _ _ _ E) as [arg [d0 [Harg Hraise]]].
    destruct arg as [items|o].
    + simpl in Hraise.
      destruct (rfold_raised _ _ _ _ Hraise) as [item [d2 [Hitem Hi]]].
      assert (Hin : In item (call_items self args None)).
      { unfold call_items. simpl. apply in_flat_map. exists (IsDict items). auto. }
      destruct (process_item_raised _ _ _ _ _ Hi)
        as [[o [Ho ->]]|[fields [k [d3 [Hf [Hk Hp]]]]]].
      * right. left. exists (fst item), o. split; [|reflexivity].
        unfold call_items. apply in_or_app. right.
        apply in_flat_map. exists (IsDict items). split; auto.
        now rewrite <- Ho, <- surjective_pairing.
      * assert (Hin' : In (fst item, IsDict fields) (call_items self args None))
          by now rewrite <- Hf, <- surjective_pairing.
        destruct (process_target_alias_raised _ _ _ _ _ _ Hp)
          as [[Hnone ->]|[_ [T [fa [HT [Hfa [Hm ->]]]]]]].
        -- right. right. left. exists (fst item), fields, k. auto.
        -- right. right. right. exists (fst item), fields, k, T, fa. auto 7.
    + injection Hraise as <-. left. exists o. auto.
Qed.

(** X9. When [all] is given and is not a mapping the call raises the
    [ValueError] for invalid default field values, naming the tuple of all
    registered aliases, before it looks at any positional argument, and the
    engine is as it was. *)
Theorem all_not_a_mapping self args o extend kwargs :
  set_defaults args (Some (NotDict o)) extend kwargs self
  = (inl (ValueError
            ("Invalid default field values in " ++ address_str (address self)
             ++ " for target type " ++ tuple_str (aliases (registered_target_types self))
             ++ ", " ++ "must be an `dict` but was " ++ repr o
             ++ " with type `" ++ type_name o ++ "`.")),
     self).
Proof. rewrite set_defaults_unfold. reflexivity. Qed.

(** X10. A positional argument that is not a mapping makes the call raise and
    leaves the engine as it was; when the arguments before it make a call
    that returns, the exception is the [ValueError] that names the type of
    the argument. *)
Theorem positional_not_a_mapping self o extend kwargs :
  (forall args all,
     In (NotDict o) args ->
     exists e, set_defaults args all extend kwargs self = (inl e, self))
  /\ (forall pre post all self',
        set_defaults pre all extend kwargs self = (inr tt, self') ->
        set_defaults (pre ++ NotDict o :: post) all extend kwargs self
        = (inl (ValueError
                  ("Expected dictionary mapping targets to default field values for "
                   ++ address_str (address self) ++ " but got: " ++ type_name o ++ ".")),
           self)).
Proof.
  split.
  - intros args all Hin.
    pose proof (call_defaults_returned self args all extend) as Hret.
    unfold call_valid in Hret.
    rewrite (forallb_false_In (directive_valid self) _ _ Hin eq_refl), andb_false_r
      in Hret.
    destruct (call_defaults self args all extend) as [e|d] eqn:E; [|discriminate].
    exists e. now apply set_defaults_raised.
  - intros pre post all self' Hpre.
    destruct (set_defaults_returned _ _ _ _ _ _ Hpre) as [d Hd].
    apply set_defaults_raised.
    unfold call_defaults in *. cbv zeta in *.
    match type of Hd with rbind ?m _ = _ => destruct m as [e1|d1] end;
      [discriminate|].
    simpl rbind in *. rewrite rfold_app, Hd. reflexivity.
Qed.

(** X11. A value of a positional directive that is not a mapping makes the
    call raise and leaves the engine as it was; when the call cut just before
    that item returns, the exception is the [ValueError] that names the key,
    the value and its type, whether the key is registered or not. *)
Theorem value_not_a_mapping self key o extend kwargs :
  (forall args all items,
     In (IsDict items) args ->
     In (key, NotDict o) items ->
     exists e, set_defaults args all extend kwargs self = (inl e, self))
  /\ (forall pre items_pre items_post post all self',
        set_defaults (pre ++ [IsDict items_pre]) all extend kwargs self = (inr tt, self') ->
        set_defaults
          (pre ++ IsDict (items_pre ++ (key, NotDict o) :: items_post) :: post)
          all extend kwargs self
        = (inl (ValueError
                  ("Invalid default field values in " ++ address_str (address self)
                   ++ " for target type " ++ key_str key ++ ", "
                   ++ "must be an `dict` but was " ++ repr o
                   ++ " with type `" ++ type_name o ++ "`.")),
           self)).
Proof.
  split.
  - intros args all items Harg Hitem.
    pose proof (call_defaults_returned self args all extend) as Hret.
    unfold call_valid in Hret.
    assert (Hd : directive_valid self (IsDict items) = false)
      by (simpl; now apply (forallb_false_In _ _ (key, NotDict o))).
    rewrite (forallb_false_In (directive_valid self) _ _ Harg Hd), andb_false_r
      in Hret.
    destruct (call_defaults self args all extend) as [e|d] eqn:E; [|discriminate].
    exists e. now apply set_defaults_raised.
  - intros pre items_pre items_post post all self' Hcut.
    destruct (set_defaults_returned _ _ _ _ _ _ Hcut) as [d Hd].
    apply set_defaults_raised.
    unfold call_defaults in *. cbv zeta in *.
    match type of Hd with rbind ?m _ = _ => destruct m as [e1|d1] end;
      [discriminate|].
    simpl rbind in *. rewrite rfold_app in *.
    destruct (rfold (fun d0 arg => _process_defaults self d0 arg false) pre d1)
      as [e2|d2]; [discriminate|].
    simpl in *. rewrite rfold_app.
    destruct (rfold (process_item self false) items_pre d2) as [e3|d3]; [discriminate|].
    reflexivity.
Qed.

End Exceptions.

(** ** Calls in a row *)

Section Composition.
Context {R : Runtime}.
Implicit Types (self : BuildFileDefaultsParserState).

(** After a call with [extend] true that returns, every kind holds what it
    held, updated with what the call gives it, and has an entry exactly when
    that mapping is not empty. *)
Lemma extend_defaults_for self args all kwargs self' kind :
  well_formed self ->
  set_defaults args all true kwargs self = (inr tt, self') ->
  defaults_for self' kind
  = update (defaults_for self kind) (given_fields (call_merges self args all) kind)
  /\ get (defaults self') kind
     = if is_empty (defaults_for self' kind) then None
       else Some (defaults_for self' kind).
Proof.
  intros Hwf Hcall.
  pose proof (set_defaults_returns _ _ _ _ _ _ (fun _ => Hwf) Hcall kind) as Hget.
  unfold defaults_for at 1 3 4. rewrite Hget. clear Hget.
  destruct (mem kind (named_kinds (call_merges self args all))) eqn:Hnamed.
  - cbv zeta.
    match goal with |- context [is_empty ?m] => destruct (is_empty m) eqn:Em end.
    + apply is_empty_nil in Em. rewrite Em. simpl. auto.
    + simpl. rewrite Em. auto.
  - rewrite (given_fields_unnamed _ _ Hnamed). unfold defaults_for.
    destruct (get (defaults self) kind) as [m|]; simpl; auto.
    destruct (is_empty m) eqn:Em; simpl.
    + apply is_empty_nil in Em. subst m. auto.
    + rewrite Em. auto.
Qed.

(** X12. Calls with [extend] true compose: when a call and then a second one
    (without [all]) return, the single call with the directives of both
    returns too and leaves every kind with the same entry. *)
Theorem extend_calls_compose self args1 args2 all kwargs self1 self2 :
  well_formed self ->
  set_defaults args1 all true kwargs self = (inr tt, self1) ->
  set_defaults args2 None true kwargs self1 = (inr tt, self2) ->
  exists self12,
    set_defaults (args1 ++ args2) all true kwargs self = (inr tt, self12)
    /\ forall kind, get (defaults self12) kind = get (defaults self2) kind.
Proof.
  intros Hwf H1 H2.
  pose proof (set_defaults_well_formed _ _ _ _ _ _ _ Hwf H1) as Hwf1.
  assert (Hself1 : exists w, self1 = with_defaults self w).
  { rewrite set_defaults_unfold in H1.
    destruct (call_defaults self args1 all true); [discriminate|].
    injection H1 as <-. eexists. reflexivity. }
  destruct Hself1 as [w Hself1].
  assert (Hvalid : call_valid self (args1 ++ args2) all = true).
  { pose proof (set_defaults_returned_is_valid _ _ _ _ _ _ H1) as V1.
    pose proof (set_defaults_returned_is_valid _ _ _ _ _ _ H2) as V2.
    subst self1. unfold call_valid in *. simpl in V2.
    apply andb_prop in V1. destruct V1 as [-> V1].
    rewrite forallb_app, V1. simpl. exact V2. }
  destruct (set_defaults_valid_returns self (args1 ++ args2) all true kwargs Hvalid)
    as [self12 H12].
  exists self12. split; [exact H12|]. intros kind.
  destruct (extend_defaults_for _ _ _ _ _ kind Hwf H1) as [F1 _].
  destruct (extend_defaults_for _ _ _ _ _ kind Hwf1 H2) as [F2 G2].
  destruct (extend_defaults_for _ _ _ _ _ kind Hwf H12) as [F12 G12].
  assert (Hsame : defaults_for self12 kind = defaults_for self2 kind).
  { rewrite F12, F2, F1. subst self1.
    unfold call_merges. simpl all_merges.
    rewrite explicit_merges_app, !given_fields_app, !update_app.
    reflexivity. }
  now rewrite G12, G2, Hsame.
Qed.

End Composition.

(** ** More on freezing *)

Section Freezing.
Context {R : Runtime}.
Implicit Types (self : BuildFileDefaultsParserState).

Lemma rmap_get_back {A B} (h : string -> A -> result B) ds tbl k y :
  rmap (fun item => rbind (h (fst item) (snd item))
                          (fun y => rret (fst item, y))) ds = inr tbl ->
  get tbl k = Some y ->
  exists v, get ds k = Some v /\ h k v = inr y.
Proof.
  revert tbl. induction ds as [|[k0 v0] ds IH]; intros tbl; simpl.
  - intros [= <-]. discriminate.
  - destruct (h k0 v0) as [e|y0] eqn:E; simpl; [discriminate|].
    destruct (rmap _ ds) as [e|tbl'] eqn:E'; simpl; [discriminate|].
    intros [= <-]. simpl.
    destruct (String.eqb_spec k k0) as [->|Hne].
    + intros [= <-]. now exists v0.
    + intros Hget. now apply IH with (tbl := tbl').
Qed.

Lemma rmap_app {A B} (f : A -> result B) xs ys :
  rmap f (xs ++ ys) =
  rbind (rmap f xs) (fun a => rbind (rmap f ys) (fun b => rret (a ++ b))).
Proof.
  induction xs as [|x xs IH]; simpl.
  - destruct (rmap f ys); reflexivity.
  - destruct (f x); simpl; auto. rewrite IH.
    destruct (rmap f xs); simpl; auto.
    destruct (rmap f ys); reflexivity.
Qed.

Lemma rmap_raises_in {A B} (f : A -> result B) xs x e :
  In x xs -> f x = inl e -> exists e', rmap f xs = inl e'.
Proof.
  intros Hin Hx. induction xs as [|y xs IH]; [destruct Hin|]. simpl.
  destruct Hin as [->|Hin].
  - rewrite Hx. now exists e.
  - destruct (f y) as [e'|b]; simpl; [now exists e'|].
    destruct (IH Hin) as [e' ->]. now exists e'.
Qed.

Lemma rmap_fixed {A} (f : A -> result A) xs :
  (forall x, In x xs -> f x = inr x) -> rmap f xs = inr xs.
Proof.
  induction xs as [|x xs IH]; intros H; simpl; auto.
  rewrite (H x) by now left. simpl. rewrite IH; auto.
  intros y Hy. apply H. now right.
Qed.

(** The table [get_frozen_defaults] computes, as a comprehension over the
    working defaults. *)
Lemma get_frozen_defaults_table self :
  fst (get_frozen_defaults self)
  = rmap (fun item => rbind (frozen_fields self (fst item) (snd item))
                            (fun y => rret (fst item, y)))
         (defaults self).
Proof. reflexivity. Qed.

Lemma frozen_fields_with_defaults self w :
  frozen_fields (with_defaults self w) = frozen_fields self.
Proof. reflexivity. Qed.

Lemma frozen_fields_unregistered self kind fields :
  get (aliases_to_types (registered_target_types self)) kind = None ->
  fields <> [] ->
  frozen_fields self kind fields = inl (KeyError kind).
Proof.
  intros Hk Hne. unfold frozen_fields.
  destruct fields as [|item fields]; [contradiction|]. simpl. now rewrite Hk.
Qed.

(** X13. Every entry of a frozen table comes from the working defaults of a
    registered kind: its key is the alias of a field type of the kind, never
    only a deprecated alias, and its value is what that field type's
    [compute_value] returns for a stored default that names it. *)
Theorem frozen_entries_are_coerced self tbl kind frozen a v :
  fst (get_frozen_defaults self) = inr tbl ->
  get tbl kind = Some frozen ->
  get frozen a = Some v ->
  exists fields target_type,
    get (defaults self) kind = Some fields
    /\ get (aliases_to_types (registered_target_types self)) kind = Some target_type
    /\ emitted self (class_field_types target_type (union_membership self)) fields a v.
Proof.
  rewrite get_frozen_defaults_table. intros Htbl Hkind Ha.
  destruct (rmap_get_back (frozen_fields self) _ _ _ _ Htbl Hkind) as [fields [Hf Hfr]].
  exists fields.
  destruct (get (aliases_to_types (registered_target_types self)) kind) as [T|] eqn:Hk.
  - exists T. split; [assumption|]. split; [reflexivity|].
    rewrite (frozen_fields_registered _ _ _ _ Hk) in Hfr.
    destruct (emit_fields _ _ _ _ _ Hfr) as [_ [_ K3]].
    destruct (K3 _ _ Ha) as [Hnil|Hem]; [discriminate | assumption].
  - exfalso. destruct fields as [|item fields].
    + injection Hfr as <-. discriminate.
    + rewrite frozen_fields_unregistered in Hfr by (auto; discriminate). discriminate.
Qed.

(** X14. Freezing raises for a kind of the working defaults that is not
    registered and has a stored default: a [KeyError] for that kind when the
    kinds before it freeze.  A kind that is not registered and has the empty
    mapping does not make it raise and freezes to the empty mapping. *)
Theorem freeze_unregistered_kind self kind :
  get (aliases_to_types (registered_target_types self)) kind = None ->
  (forall fields,
     In (kind, fields) (defaults self) -> fields <> [] ->
     exists e, fst (get_frozen_defaults self) = inl e)
  /\ (forall before fields after tbl,
        defaults self = before ++ (kind, fields) :: after ->
        fields <> [] ->
        fst (get_frozen_defaults (with_defaults self before)) = inr tbl ->
        fst (get_frozen_defaults self) = inl (KeyError kind))
  /\ (forall before after tbl tbl',
        defaults self = before ++ (kind, []) :: after ->
        fst (get_frozen_defaults (with_defaults self before)) = inr tbl ->
        fst (get_frozen_defaults (with_defaults self after)) = inr tbl' ->
        fst (get_frozen_defaults self) = inr (tbl ++ (kind, []) :: tbl')).
Proof.
  intros Hk. split; [|split].
  - intros fields Hin Hne. rewrite get_frozen_defaults_table.
    apply (rmap_raises_in _ _ (kind, fields) (KeyError kind) Hin).
    simpl. now rewrite frozen_fields_unregistered.
  - intros before fields after tbl Hd Hne Hb.
    rewrite get_frozen_defaults_table in *. simpl in Hb.
    rewrite frozen_fields_with_defaults in Hb.
    rewrite Hd, rmap_app, Hb. simpl.
    now rewrite frozen_fields_unregistered.
  - intros before after tbl tbl' Hd Hb Ha.
    rewrite get_frozen_defaults_table in *. simpl in Hb, Ha.
    rewrite frozen_fields_with_defaults in Hb, Ha.
    rewrite Hd, rmap_app, Hb. simpl. now rewrite Ha.
Qed.

(** X15. A coercion that raises makes freezing raise: when a stored default
    of a registered kind names a field type whose [compute_value] raises for
    it, [get_frozen_defaults] does not return a table. *)
Theorem freeze_coercion_failure self kind target_type fields fa raw field_type e :
  get (defaults self) kind = Some fields ->
  get (aliases_to_types (registered_target_types self)) kind = Some target_type ->
  In (fa, raw) fields ->
  In field_type (class_field_types target_type (union_membership self)) ->
  names_field field_type fa = true ->
  compute_value field_type raw (address self) = inl e ->
  exists e', fst (get_frozen_defaults self) = inl e'.
Proof.
  intros Hf Hk Hin Hft Hn He.
  destruct (fst (get_frozen_defaults self)) as [e'|tbl] eqn:E; [now exists e'|].
  exfalso. rewrite get_frozen_defaults_table in E.
  destruct (rmap_get (frozen_fields self) _ _ _ _ E Hf) as [frozen [Hfr _]].
  rewrite (frozen_fields_registered _ _ _ _ Hk) in Hfr.
  destruct (rfold_ok_each _ _ _ _ Hfr (fa, raw) Hin) as [acc0 [acc1 Hitem]].
  destruct (rfold_ok_each _ _ _ _ Hitem field_type Hft) as [acc2 [acc3 Hemit]].
  unfold emit in Hemit. simpl in Hemit. rewrite Hn, He in Hemit. discriminate.
Qed.

Lemma set_absent {V} (d : dict V) k v : get d k = None -> set d k v = d ++ [(k, v)].
Proof.
  induction d as [|[k' v'] d IH]; simpl; auto.
  destruct (String.eqb k k'); [discriminate|].
  intros H. now rewrite IH.
Qed.

Lemma update_fresh {V} (d u : dict V) :
  NoDup (keys d ++ keys u) -> update d u = d ++ u.
Proof.
  unfold update. revert d. induction u as [|[k v] u IH]; intros d Hnd; simpl.
  - now rewrite app_nil_r.
  - simpl in Hnd. assert (Hk : get d k = None).
    { apply get_None_keys. intros Hin.
      apply NoDup_remove_2 in Hnd. apply Hnd. apply in_or_app. now left. }
    rewrite (set_absent _ _ _ Hk), IH.
    + now rewrite <- app_assoc.
    + unfold keys in *. rewrite map_app. simpl. rewrite <- app_assoc. simpl.
      apply NoDup_Add with (a := k) (l := map fst d ++ map fst u).
      * apply Add_app.
      * split.
        -- now apply NoDup_remove_1 in Hnd.
        -- now apply NoDup_remove_2 in Hnd.
Qed.

Lemma emit_sole self field_types fa raw a v acc :
  sole_coercion self field_types fa raw a v ->
  rfold (emit self (fa, raw)) field_types acc = inr (set acc a v).
Proof.
  intros [before [ft [after [-> [Hothers [Hn [Ha Hv]]]]]]].
  rewrite rfold_app, emit_skips
    by (intros o Ho; apply Hothers, in_or_app; now left).
  simpl. unfold emit at 1. simpl. rewrite Hn, Hv. simpl. rewrite Ha.
  apply emit_skips. intros o Ho. apply Hothers, in_or_app. now right.
Qed.

Lemma frozen_fields_exact self kind target_type fields out :
  get (aliases_to_types (registered_target_types self)) kind = Some target_type ->
  Forall2 (fun item o =>
             sole_coercion self (class_field_types target_type (union_membership self))
                           (fst item) (snd item) (fst o) (snd o))
          fields out ->
  frozen_fields self kind fields = inr (update [] out).
Proof.
  intros Hk Hall. rewrite (frozen_fields_registered _ _ _ _ Hk).
  unfold update. generalize (@nil (string * ImmutableValue)) as acc.
  induction Hall as [|[fa raw] [a v] fields out Hsole _ IH]; intros acc; simpl.
  - reflexivity.
  - simpl in Hsole. rewrite (emit_sole _ _ _ _ _ _ acc Hsole). simpl. apply IH.
Qed.

(** X16. When every stored default of a registered kind names exactly one
    field type of the kind, the frozen fields of the kind are the dictionary
    built, in the order stored, from the alias of that field type and its
    coercion of the stored value. *)
Theorem freeze_exact self kind target_type fields out tbl :
  get (defaults self) kind = Some fields ->
  get (aliases_to_types (registered_target_types self)) kind = Some target_type ->
  Forall2 (fun item o =>
             sole_coercion self (class_field_types target_type (union_membership self))
                           (fst item) (snd item) (fst o) (snd o))
          fields out ->
  fst (get_frozen_defaults self) = inr tbl ->
  get tbl kind = Some (update [] out).
Proof.
  intros Hf Hk Hall Htbl. rewrite get_frozen_defaults_table in Htbl.
  destruct (rmap_get (frozen_fields self) _ _ _ _ Htbl Hf) as [frozen [Hfr Hget]].
  rewrite (frozen_fields_exact _ _ _ _ _ Hk Hall) in Hfr. now injection Hfr as <-.
Qed.

Lemma Forall2_same {A} (P : A -> A -> Prop) xs :
  (forall x, In x xs -> P x x) -> Forall2 P xs xs.
Proof.
  induction xs as [|x xs IH]; intros H; constructor.
  - apply H. now left.
  - apply IH. intros y Hy. apply H. now right.
Qed.

(** X17. Inheritance without directives: an engine built from a table whose
    kinds are registered, whose fields are each the alias of the one field
    type they name and whose values that field type coerces to themselves,
    freezes to that very table. *)
Theorem inherit_unchanged path tbl rtt um :
  (forall kind fields,
     In (kind, fields) tbl ->
     NoDup (keys fields)
     /\ exists target_type,
          get (aliases_to_types rtt) kind = Some target_type
          /\ forall fa v,
               In (fa, v) fields ->
               sole_coercion (create path tbl rtt um)
                             (class_field_types target_type um) fa v fa v) ->
  fst (get_frozen_defaults (create path tbl rtt um)) = inr tbl.
Proof.
  intros H. rewrite get_frozen_defaults_table.
  change (defaults (create path tbl rtt um))
    with (map (fun kv : string * dict Any => (fst kv, snd kv)) tbl).
  rewrite copy_items. apply rmap_fixed. intros [kind fields] Hin. simpl.
  destruct (H kind fields Hin) as [Hnd [T [Hk Hsole]]].
  rewrite (frozen_fields_exact (create path tbl rtt um) kind T fields fields Hk).
  - simpl. rewrite update_fresh by exact Hnd. reflexivity.
  - apply Forall2_same. intros [fa v] Hfa. simpl. now apply Hsole.
Qed.

End Freezing.

(** ** Reading back what was set *)

Section ReadBack.
Context {R : Runtime}.
Implicit Types (self : BuildFileDefaultsParserState).

(** X18. Set and get: a directive that gives a registered kind fields it has
    ([extend] false) returns, and [get] for the kind then returns exactly the
    mapping given, without raising and without touching the engine. *)
Theorem set_then_get self target_alias target_type fields kwargs :
  get (aliases_to_types (registered_target_types self)) target_alias
    = Some target_type ->
  (forall fa, In fa (keys fields) ->
              mem fa (valid_field_aliases_of self target_type) = true) ->
  NoDup (keys fields) ->
  exists self',
    set_defaults [IsDict [(KStr target_alias, IsDict fields)]] None false kwargs self
      = (inr tt, self')
    /\ get_defaults (alias target_type) self' = (inr fields, self').
Proof.
  intros Hk Hvalid Hnd.
  destruct (set_defaults_valid_returns self
              [IsDict [(KStr target_alias, IsDict fields)]] None false kwargs)
    as [self' Hcall].
  { unfold call_valid, directive_valid, item_valid, alias_valid. simpl.
    rewrite Hk, !andb_true_r. apply forallb_forall. exact Hvalid. }
  exists self'. split; [exact Hcall|].
  assert (Hwf : false = true -> well_formed self) by discriminate.
  assert (Hmerges : call_merges self [IsDict [(KStr target_alias, IsDict fields)]] None
                    = [(alias target_type, fields)]).
  { unfold call_merges, explicit_merges. simpl.
    unfold merges_of_item, merges_of_alias. simpl. now rewrite Hk. }
  assert (Hnamed : mem (alias target_type)
            (named_kinds
               (call_merges self [IsDict [(KStr target_alias, IsDict fields)]] None))
            = true).
  { rewrite Hmerges. unfold mem. simpl. now rewrite String.eqb_refl. }
  pose proof (set_defaults_named _ _ _ _ _ _ _ Hwf Hcall Hnamed) as Hfor.
  rewrite Hmerges in Hfor. simpl in Hfor.
  rewrite String.eqb_refl, app_nil_r, update_fresh in Hfor by exact Hnd.
  unfold get_defaults, bind, read, ret. now rewrite Hfor.
Qed.

Lemma restrict_to_nothing valid (fields : dict Any) :
  (forall fa, In fa (keys fields) -> mem fa valid = false) ->
  restrict_to valid fields = [].
Proof.
  induction fields as [|[k v] fields IH]; intros H; simpl; auto.
  rewrite (H k) by (simpl; auto). apply IH. intros fa Hfa. apply H. simpl. auto.
Qed.

Lemma given_fields_nothing (ms : list (string * dict Any)) kind :
  (forall m, In m ms -> snd m = []) -> given_fields ms kind = [].
Proof.
  induction ms as [|[k u] ms IH]; intros H; simpl; auto.
  pose proof (H (k, u) (or_introl eq_refl)) as Hu. simpl in Hu. subst u.
  assert (Hrest : given_fields ms kind = [])
    by (apply IH; intros m' Hm'; apply H; now right).
  rewrite Hrest. now destruct (String.eqb kind k).
Qed.

Lemma mem_false x xs : mem x xs = false <-> ~ In x xs.
Proof.
  rewrite <- mem_In. destruct (mem x xs); split; intros; congruence.
Qed.

(** X19. An [all] mapping none of whose fields any registered target type
    has, the empty mapping for one, with [extend] false: the call returns,
    every registered kind loses its entry, and the kinds no target type is
    registered for keep theirs. *)
Theorem all_without_applicable_fields self fields kwargs :
  (forall fa target_alias target_type,
     In fa (keys fields) ->
     In (target_alias, target_type) (aliases_to_types (registered_target_types self)) ->
     mem fa (valid_field_aliases_of self target_type) = false) ->
  exists self',
    set_defaults [] (Some (IsDict fields)) false kwargs self = (inr tt, self')
    /\ (forall target_alias target_type,
          get (aliases_to_types (registered_target_types self)) target_alias
            = Some target_type ->
          get (defaults self') (alias target_type) = None)
    /\ (forall kind,
          (forall target_alias target_type,
             In (target_alias, target_type)
                (aliases_to_types (registered_target_types self)) ->
             alias target_type <> kind) ->
          get (defaults self') kind = get (defaults self) kind).
Proof.
  intros Hnone.
  destruct (set_defaults_valid_returns self [] (Some (IsDict fields)) false kwargs)
    as [self' Hcall]; [reflexivity|].
  exists self'. split; [exact Hcall|].
  assert (Hwf : false = true -> well_formed self) by discriminate.
  assert (Hms : forall m,
             In m (call_merges self [] (Some (IsDict fields))) ->
             snd m = []
             /\ exists k T,
                  In (k, T) (aliases_to_types (registered_target_types self))
                  /\ alias T = fst m).
  { intros m. unfold call_merges, all_merges, merges_of_directive. simpl.
    rewrite !app_nil_r. unfold merges_of_item. simpl. rewrite in_flat_map.
    intros [k [_ Hm]]. unfold merges_of_alias in Hm.
    destruct (get _ k) as [T|] eqn:Hk; [|destruct Hm].
    destruct Hm as [<-|[]]. simpl. apply get_Some_In in Hk. split.
    - apply restrict_to_nothing. intros fa Hfa. now apply (Hnone fa k T).
    - exists k, T. auto. }
  split.
  - intros k T Hk.
    rewrite (set_defaults_returns _ _ _ _ _ _ Hwf Hcall (alias T)).
    rewrite (all_names_call self [] fields k T Hk). cbv zeta.
    rewrite given_fields_nothing by (intros m Hm; now apply Hms). reflexivity.
  - intros kind Hkind.
    rewrite (set_defaults_returns _ _ _ _ _ _ Hwf Hcall kind).
    assert (Hun : mem kind (named_kinds (call_merges self [] (Some (IsDict fields))))
                  = false).
    { apply mem_false. unfold named_kinds. rewrite in_map_iff.
      intros [m [Hfst Hm]]. destruct (Hms m Hm) as [_ [k [T [HT Hal]]]].
      apply (Hkind k T HT). congruence. }
    now rewrite Hun.
Qed.

Lemma In_keys_update {V} (d u : dict V) k :
  In k (keys (update d u)) -> In k (keys d) \/ In k (keys u).
Proof.
  intros Hin.
  destruct (get d k) as [v|] eqn:Ed; [left; eapply get_Some_keys; eauto|].
  right. destruct (last_binding u k) as [w|] eqn:Eu.
  - destruct (in_dec string_dec k (keys u)) as [H|H]; auto.
    apply last_binding_None_keys in H. congruence.
  - exfalso. assert (Hg : get (update d u) k = None) by now rewrite get_update, Eu.
    apply get_None_keys in Hg. contradiction.
Qed.

Lemma In_keys_given_fields (ms : list (string * dict Any)) kind fa :
  In fa (keys (given_fields ms kind)) ->
  exists m, In m ms /\ fst m = kind /\ In fa (keys (snd m)).
Proof.
  induction ms as [|[k u] ms IH]; simpl; [tauto|].
  unfold keys in *. rewrite map_app, in_app_iff. intros [H|H].
  - revert H.
    destruct (String.eqb_spec kind k) as [E|E]; intros H; [|destruct H].
    exists (k, u). auto.
  - destruct (IH H) as [m' [Hm' Hrest]]. exists m'. auto.
Qed.

(** X20. The working defaults only ever hold fields the kinds have: when
    every stored field is a field of a registered target type of its kind,
    this is still so after a call that returns, and the call leaves the
    registry, the union membership and the address alone. *)
Theorem set_defaults_keeps_stored_valid self args all extend kwargs self' :
  (extend = true -> well_formed self) ->
  stored_valid self ->
  set_defaults args all extend kwargs self = (inr tt, self') ->
  stored_valid self'
  /\ registered_target_types self' = registered_target_types self
  /\ union_membership self' = union_membership self
  /\ address self' = address self.
Proof.
  intros Hwf Hsv Hcall.
  destruct (set_defaults_registry _ _ _ _ _ _ _ Hcall) as [Hr [Hu Ha]].
  split; [|auto].
  destruct (set_defaults_returned _ _ _ _ _ _ Hcall) as [d Hd].
  assert (Hframe : forall T, valid_field_aliases_of self' T = valid_field_aliases_of self T).
  { intros T. unfold valid_field_aliases_of. now rewrite Hu. }
  intros kind fields fa Hget Hfa. rewrite Hr. setoid_rewrite Hframe.
  rewrite (set_defaults_returns _ _ _ _ _ _ Hwf Hcall kind) in Hget.
  destruct (mem kind (named_kinds (call_merges self args all))) eqn:Hnamed.
  - cbv zeta in Hget.
    match type of Hget with context [is_empty ?m] => destruct (is_empty m) end;
      [discriminate|].
    injection Hget as <-.
    apply In_keys_update in Hfa. destruct Hfa as [Hfa|Hfa].
    + destruct extend; [|destruct Hfa].
      unfold defaults_for in Hfa.
      destruct (get (defaults self) kind) as [m|] eqn:Em; [|destruct Hfa].
      now apply (Hsv kind m fa).
    + destruct (In_keys_given_fields _ _ _ Hfa) as [m [Hm [Hfst Hin]]].
      destruct (call_merges_valid _ _ _ _ _ _ Hd Hm) as [k [T [HT [Hal Hv]]]].
      exists k, T. split; [assumption|]. split; [congruence|]. now apply Hv.
  - destruct extend.
    + destruct (get (defaults self) kind) as [m|] eqn:Em; [|discriminate].
      destruct (is_empty m); [discriminate|]. injection Hget as <-.
      now apply (Hsv kind m fa).
    + now apply (Hsv kind fields fa).
Qed.

End ReadBack.

(** ** Other ways to write the same call *)

Section Rewriting.
Context {R : Runtime}.
Implicit Types (self : BuildFileDefaultsParserState).

Lemma rfold_replace {A B} (f : A -> B -> result A) xs y y' zs a :
  (forall a0, f a0 y = f a0 y') ->
  rfold f (xs ++ y :: zs) a = rfold f (xs ++ y' :: zs) a.
Proof.
  intros H. rewrite !rfold_app. destruct (rfold f xs a); simpl; auto.
  now rewrite H.
Qed.

Lemma rfold_split {A B} (f : A -> B -> result A) xs y y1 y2 zs a :
  (forall a0, f a0 y = rbind (f a0 y1) (fun a1 => f a1 y2)) ->
  rfold f (xs ++ y :: zs) a = rfold f (xs ++ y1 :: y2 :: zs) a.
Proof.
  intros H. rewrite !rfold_app. destruct (rfold f xs a) as [e|a0]; simpl; auto.
  rewrite H. now destruct (f a0 y1).
Qed.

Lemma rfold_ext_in {A B} (f g : A -> B -> result A) xs a :
  (forall a0 x, In x xs -> f a0 x = g a0 x) ->
  rfold f xs a = rfold g xs a.
Proof.
  revert a. induction xs as [|x xs IH]; intros a H; simpl; auto.
  rewrite (H a x) by now left.
  destruct (g a x); simpl; auto. apply IH. intros a1 y Hy. apply H. now right.
Qed.

(** A call is determined by what [call_defaults] computes. *)
Lemma set_defaults_same_call self args args' all all' extend kwargs :
  call_defaults self args all extend = call_defaults self args' all' extend ->
  set_defaults args all extend kwargs self = set_defaults args' all' extend kwargs self.
Proof. intros H. now rewrite !set_defaults_unfold, H. Qed.

Lemma call_defaults_replace self pre directive directive' post all extend :
  (forall d, _process_defaults self d directive false
             = _process_defaults self d directive' false) ->
  call_defaults self (pre ++ directive :: post) all extend
  = call_defaults self (pre ++ directive' :: post) all extend.
Proof.
  intros H. unfold call_defaults. cbv zeta.
  match goal with |- rbind ?m _ = _ => destruct m as [e|d1] end; simpl; auto.
  now apply (rfold_replace (fun d arg => _process_defaults self d arg false)).
Qed.

(** X21. A tuple key stands for its aliases one after the other: writing an
    item whose key is a tuple as two items, one for the first aliases of the
    tuple and one for the rest, both with the same mapping, gives the same
    call; and a string key is the tuple of that one alias. *)
Theorem tuple_key_splits self pre items_pre t1 t2 fields items_post post all extend
        kwargs :
  set_defaults
    (pre ++ IsDict (items_pre ++ (KTuple (t1 ++ t2), IsDict fields) :: items_post) :: post)
    all extend kwargs self
  = set_defaults
      (pre ++ IsDict (items_pre ++ (KTuple t1, IsDict fields)
                                :: (KTuple t2, IsDict fields) :: items_post) :: post)
      all extend kwargs self
  /\ forall target_alias,
       set_defaults
         (pre ++ IsDict (items_pre ++ (KStr target_alias, IsDict fields) :: items_post)
              :: post)
         all extend kwargs self
       = set_defaults
           (pre ++ IsDict (items_pre ++ (KTuple [target_alias], IsDict fields)
                                     :: items_post) :: post)
           all extend kwargs self.
Proof.
  split.
  - apply set_defaults_same_call, call_defaults_replace. intros d. simpl.
    apply rfold_split. intros d0. unfold process_item. simpl. apply rfold_app.
  - intros target_alias.
    apply set_defaults_same_call, call_defaults_replace. intros d. simpl.
    apply rfold_replace. reflexivity.
Qed.

(** X22. The items of one positional directive can as well be given in two
    positional directives, the first items in one and the rest in the next:
    the call is the same. *)
Theorem directive_splits self pre items1 items2 post all extend kwargs :
  set_defaults (pre ++ IsDict (items1 ++ items2) :: post) all extend kwargs self
  = set_defaults (pre ++ IsDict items1 :: IsDict items2 :: post) all extend kwargs self.
Proof.
  apply set_defaults_same_call. unfold call_defaults. cbv zeta.
  match goal with |- rbind ?m _ = _ => destruct m as [e|d1] end; simpl; auto.
  apply (rfold_split (fun d arg => _process_defaults self d arg false)).
  intros d. simpl. apply rfold_app.
Qed.

Lemma check_fields_strict_valid target_type valid default :
  (forall fa, In fa (keys default) -> mem fa valid = true) ->
  check_fields target_type valid false default = inr default.
Proof.
  intros H. unfold check_fields. revert H. generalize (keys default) as ks.
  induction ks as [|k ks IH]; intros H; simpl; auto.
  rewrite (H k) by now left. simpl. apply IH. intros fa Hfa. apply H. now right.
Qed.

Lemma restrict_to_all valid (fields : dict Any) :
  (forall fa, In fa (keys fields) -> mem fa valid = true) ->
  restrict_to valid fields = fields.
Proof.
  intros H. unfold restrict_to. apply filter_all. intros [k v] Hin. simpl.
  apply H. unfold keys. now apply (in_map fst) in Hin.
Qed.

(** X23. When every registered target type has every field of the [all]
    mapping, giving the mapping as [all] is the same call as giving it first,
    in a positional directive, under the tuple of all registered aliases. *)
Theorem all_as_directive self args fields extend kwargs :
  (forall fa target_alias target_type,
     In fa (keys fields) ->
     get (aliases_to_types (registered_target_types self)) target_alias
       = Some target_type ->
     mem fa (valid_field_aliases_of self target_type) = true) ->
  set_defaults args (Some (IsDict fields)) extend kwargs self
  = set_defaults
      (IsDict [(KTuple (aliases (registered_target_types self)), IsDict fields)] :: args)
      None extend kwargs self.
Proof.
  intros Hvalid. apply set_defaults_same_call. unfold call_defaults. cbv zeta.
  simpl rfold. simpl rbind.
  match goal with
  | |- rbind ?m _ = rbind ?m' _ => assert (Hm : m = m'); [|now rewrite Hm]
  end.
  simpl. unfold process_item. simpl.
  match goal with |- rbind ?m _ = rbind ?m' _ => assert (Hm : m = m'); [|now rewrite Hm] end.
  apply rfold_ext_in. intros d k _. unfold process_target_alias.
  destruct (get _ k) as [T|] eqn:Hk; [|reflexivity].
  rewrite check_fields_ignore, restrict_to_all, check_fields_strict_valid;
    auto; intros fa Hfa; now apply (Hvalid fa k T).
Qed.

End Rewriting.

(** ** The scenarios of [defaults_test.py] *)

Import Fixture.

Example test_assumptions :
  scenario "" [IsDict [(KStr "target", IsDict [("tags", PyList ["foo"; "bar"])])]]
           None false []
  = inr [("target", [("tags", PyTuple ["foo"; "bar"])])].
Proof. reflexivity. Qed.

Example test_simple_inherit :
  scenario "src/proj/a" [] (Some (IsDict [("tags", PyList ["tagged-2"])])) false
           tagged_parent
  = inr [("test_type_1", [("tags", PyTuple ["tagged-2"])]);
         ("target", [("tags", PyTuple ["tagged-2"])]);
         ("test_type_2", [("tags", PyTuple ["tagged-2"])])].
Proof. reflexivity. Qed.

Example test_extend_test :
  scenario "src" [only_description] None false root_tag_parent
  = inr [("target", [("tags", PyTuple ["root-tag"])]);
         ("test_type_1", [("tags", PyTuple ["root-tag"])]);
         ("test_type_2", [("description", PyStr "only desc default")])].
Proof. reflexivity. Qed.

Example test_invalid_defaults_args :
  scenario "" [NotDict (PyList ["bad type"])] None false []
  = inl (ValueError
           "Expected dictionary mapping targets to default field values for //#__defaults__ but got: list.").
Proof. reflexivity. Qed.

Example test_invalid_default_field_values :
  scenario "" [IsDict [(KStr "test_type_1", NotDict (PyTuple []))]] None false []
  = inl (ValueError
           "Invalid default field values in //#__defaults__ for target type test_type_1, must be an `dict` but was () with type `tuple`.").
Proof. reflexivity. Qed.

Example test_unknown_target :
  scenario "" [unknown_target] None false []
  = inl (ValueError "Unrecognized target type unknown_target in //#__defaults__.").
Proof. reflexivity. Qed.

Example test_invalid_field :
  scenario "" [invalid_field] None false []
  = inl (InvalidFieldException
           "Unrecognized field `does-not-exist` for target test_type_1. Valid fields are: dependencies, description, tags.").
Proof. reflexivity. Qed.

Example test_invalid_field_value :
  scenario "src/proj/a" [IsDict [(KStr "test_type_1", IsDict [("tags", PyStr "foo-bar")])]]
           None false []
  = inl (InvalidFieldException
           "The 'tags' field in target src/proj/a#__defaults__ must be an iterable of strings (e.g. a list of strings), but was `'foo-bar'` with type `str`.").
Proof. reflexivity. Qed.

Example test_unknown_fields_ignored_for_all :
  scenario "" [] (Some (IsDict [("foo_bar", PyStr "ignored")])) false [] = inr [].
Proof. reflexivity. Qed.

Example test_reset_default :
  scenario "" [reset_test_type_1] None false foo_bar_parent = inr [].
Proof. reflexivity. Qed.

(** ** Where the code differs from the claims *)

(** C1 as stated fails: built from the parent of "simple inherit", the engine
    freezes to the parent's entry, not to the empty table, both when
    [set_defaults] is never called and when it is called without directives. *)
Lemma no_directives_not_empty :
  fst (get_frozen_defaults tagged_engine)
    = inr [("test_type_1", [("tags", PyTuple ["tagged-1"])])]
  /\ fst ((set_defaults [] None false [] ;;; get_frozen_defaults)%py tagged_engine)
     = inr [("test_type_1", [("tags", PyTuple ["tagged-1"])])]
  /\ fst ((set_defaults [] None false [] ;;; get_frozen_defaults)%py tagged_engine)
     <> inr [].
Proof. split; [reflexivity|]. split; [reflexivity | discriminate]. Qed.

(** C6 as stated fails: [does-not-exist] is not a field of [test_type_1] and
    an explicit directive gives it to that kind, yet the call raises the
    [ValueError] of the unknown kind written before it, not the
    [InvalidFieldException]. *)
Lemma unknown_field_other_exception :
  get (aliases_to_types (registered_target_types root)) "test_type_1" = Some Test1Target
  /\ mem "does-not-exist" (valid_field_aliases_of root Test1Target) = false
  /\ fst (set_defaults [unknown_target_then_invalid_field] None false [] root)
     = inl (ValueError "Unrecognized target type unknown_target in //#__defaults__.")
  /\ fst (set_defaults [unknown_target_then_invalid_field] None false [] root)
     <> inl (InvalidFieldException
               "Unrecognized field `does-not-exist` for target test_type_1. Valid fields are: dependencies, description, tags.").
Proof.
  split; [reflexivity|]. split; [reflexivity|]. split; [reflexivity | discriminate].
Qed.

(** C8 as stated fails: [unknown_target] is not in the registry and an
    explicit directive names it, yet the call raises the
    [InvalidFieldException] of the directive before it, not an
    unrecognized-kind error. *)
Lemma unknown_kind_other_exception :
  get (aliases_to_types (registered_target_types root)) "unknown_target" = None
  /\ fst (set_defaults [invalid_field; unknown_target] None false [] root)
     = inl (InvalidFieldException
              "Unrecognized field `does-not-exist` for target test_type_1. Valid fields are: dependencies, description, tags.")
  /\ fst (set_defaults [invalid_field; unknown_target] None false [] root)
     <> inl (ValueError "Unrecognized target type unknown_target in //#__defaults__.").
Proof. split; [reflexivity|]. split; [reflexivity | discriminate]. Qed.

(** ** The theorems at the scenarios *)

Lemma no_directives_keep_parent_witness :
  fst (get_frozen_defaults tagged_engine)
    = inr [("test_type_1", [("tags", PyTuple ["tagged-1"])])]
  /\ keys [("test_type_1", [("tags", PyTuple ["tagged-1"])])] = keys tagged_parent.
Proof.
  split; [reflexivity|].
  destruct (no_directives_keep_parent "src/proj/a" tagged_parent registered_types tt [])
    as [_ [_ [_ H]]].
  apply H. reflexivity.
Defined.

Lemma set_defaults_replaces_named_kinds_witness :
  set_defaults [only_description] None false [] root_tag_engine
    = (inr tt, snd (set_defaults [only_description] None false [] root_tag_engine))
  /\ defaults_for (snd (set_defaults [only_description] None false [] root_tag_engine))
                  "test_type_2"
     = given_mapping (call_merges root_tag_engine [only_description] None) "test_type_2"
  /\ get (defaults (snd (set_defaults [only_description] None false [] root_tag_engine)))
         "target"
     = get (defaults root_tag_engine) "target".
Proof.
  assert (H : set_defaults [only_description] None false [] root_tag_engine
              = (inr tt, snd (set_defaults [only_description] None false [] root_tag_engine)))
    by reflexivity.
  split; [exact H|].
  pose proof (set_defaults_replaces_named_kinds root_tag_engine [only_description]
                None [] _ H) as T.
  split.
  - destruct (T "test_type_2") as [N _]. destruct (N eq_refl) as [E _]. exact E.
  - destruct (T "target") as [_ U]. apply U. reflexivity.
Defined.

Lemma set_defaults_raise_keeps_state_witness :
  set_defaults [unknown_target] None false [] tagged_engine
    = (inl (ValueError "Unrecognized target type unknown_target in src/proj/a#__defaults__."),
       tagged_engine)
  /\ tagged_engine = tagged_engine
  /\ defaults tagged_engine = defaults tagged_engine.
Proof.
  split; [reflexivity|].
  apply (set_defaults_raise_keeps_state tagged_engine [unknown_target] None false []
           (ValueError "Unrecognized target type unknown_target in src/proj/a#__defaults__.")
           tagged_engine).
  reflexivity.
Defined.

Lemma explicit_wins_over_all_witness :
  well_formed root
  /\ set_defaults [tags_y_for_test_type_1] (Some (IsDict tags_x)) false [] root
     = (inr tt,
        snd (set_defaults [tags_y_for_test_type_1] (Some (IsDict tags_x)) false [] root))
  /\ get (defaults_for
            (snd (set_defaults [tags_y_for_test_type_1] (Some (IsDict tags_x)) false [] root))
            "test_type_1") "tags"
     = Some (PyList ["y"])
  /\ get (defaults_for
            (snd (set_defaults [tags_y_for_test_type_1] (Some (IsDict tags_x)) false [] root))
            (alias Test2Target)) "tags"
     = Some (PyList ["x"]).
Proof.
  assert (Hwf : well_formed root) by (unfold well_formed; simpl; constructor).
  assert (H : set_defaults [tags_y_for_test_type_1] (Some (IsDict tags_x)) false [] root
              = (inr tt,
                 snd (set_defaults [tags_y_for_test_type_1] (Some (IsDict tags_x))
                        false [] root)))
    by reflexivity.
  split; [exact Hwf|]. split; [exact H|].
  destruct (explicit_wins_over_all root [tags_y_for_test_type_1] tags_x false [] _ Hwf H)
    as [P1 P2].
  split.
  - apply (P1 "test_type_1" "tags" (PyList ["y"])). reflexivity.
  - apply (P2 "test_type_2" Test2Target "tags" (PyList ["x"])); reflexivity.
Defined.

Lemma empty_directive_resets_kind_witness :
  get (aliases_to_types (registered_target_types foo_bar_engine)) "test_type_1"
    = Some Test1Target
  /\ exists self',
       set_defaults [IsDict [(KStr "test_type_1", IsDict [])]] None false [] foo_bar_engine
         = (inr tt, self')
       /\ defaults self' = pop (defaults foo_bar_engine) (alias Test1Target)
       /\ get (defaults self') (alias Test1Target) = None
       /\ forall tbl,
            fst (get_frozen_defaults self') = inr tbl ->
            get tbl (alias Test1Target) = None.
Proof.
  split; [reflexivity|].
  apply (empty_directive_resets_kind foo_bar_engine "test_type_1" Test1Target []).
  reflexivity.
Defined.

Lemma unknown_kind_raises_witness :
  get (aliases_to_types (registered_target_types tagged_engine)) "unknown_target" = None
  /\ (exists e,
        set_defaults [unknown_target] None false [] tagged_engine = (inl e, tagged_engine))
  /\ set_defaults [unknown_target] None false [] tagged_engine
     = (inl (ValueError ("Unrecognized target type " ++ "unknown_target" ++ " in "
                         ++ address_str (address tagged_engine) ++ ".")),
        tagged_engine).
Proof.
  destruct (unknown_kind_raises tagged_engine None false [] "unknown_target" eq_refl)
    as [A B].
  split; [reflexivity|]. split.
  - apply (A [unknown_target] [(KStr "unknown_target", IsDict [])]
             (KStr "unknown_target") (IsDict [])); simpl; auto.
  - apply (B [] [] (KStr "unknown_target") [] [] [] [] [] tagged_engine);
      reflexivity.
Defined.

Lemma unknown_field_witness :
  get (aliases_to_types (registered_target_types root)) "test_type_1" = Some Test1Target
  /\ mem "does-not-exist" (valid_field_aliases_of root Test1Target) = false
  /\ (exists e, set_defaults [invalid_field] None false [] root = (inl e, root))
  /\ (exists names,
        Sorted str_lt names
        /\ (forall x, In x names <-> In x (valid_field_aliases_of root Test1Target))
        /\ set_defaults [invalid_field] None false [] root
           = (inl (InvalidFieldException
                     ("Unrecognized field `" ++ "does-not-exist" ++ "` for target "
                      ++ alias Test1Target ++ ". " ++ "Valid fields are: "
                      ++ join ", " names ++ ".")),
              root))
  /\ (exists self',
        set_defaults [] (Some (IsDict [("does-not-exist", PyTuple [])])) false [] root
        = (inr tt, self'))
  /\ get (defaults_for
            (snd (set_defaults [] (Some (IsDict [("does-not-exist", PyTuple [])]))
                    false [] root))
            (alias Test1Target)) "does-not-exist"
     = None.
Proof.
  destruct (unknown_field root false [] "test_type_1" Test1Target "does-not-exist"
              eq_refl eq_refl) as [A [B [C D]]].
  split; [reflexivity|]. split; [reflexivity|]. split; [|split; [|split]].
  - apply (A [invalid_field] None
             [(KStr "test_type_1", IsDict [("does-not-exist", PyTuple [])])]
             (KStr "test_type_1") [("does-not-exist", PyTuple [])]); simpl; auto.
  - apply (B [] [] (KStr "test_type_1") [] (PyTuple []) [] [] [] [] [] None root).
    + reflexivity.
    + intros fa' [].
    + reflexivity.
  - apply C.
  - apply (D [] [("does-not-exist", PyTuple [])]).
    + intros k T Hin Hal. simpl in Hin.
      destruct Hin as [E|[E|[E|[]]]]; injection E as <- <-; reflexivity.
    + discriminate.
    + reflexivity.
Defined.

Lemma freeze_renames_and_drops_witness :
  get (defaults files_engine) "files" = Some files_fields
  /\ get (aliases_to_types (registered_target_types files_engine)) "files"
     = Some FilesTarget
  /\ (exists frozen v,
        get [("files", [("sources", PyTuple ["a.txt"])])] "files" = Some frozen
        /\ get frozen (field_alias Sources) = Some v
        /\ emitted files_engine (class_field_types FilesTarget (union_membership files_engine))
                   files_fields (field_alias Sources) v)
  /\ fst (get_frozen_defaults
            (with_defaults files_engine
               (set (defaults files_engine) "files" (pop files_fields "bogus"))))
     = fst (get_frozen_defaults files_engine)
  /\ get [("sources", PyTuple ["a.txt"])] "bogus" = None.
Proof.
  destruct (freeze_renames_and_drops files_engine "files" FilesTarget files_fields
              eq_refl eq_refl) as [A B].
  split; [reflexivity|]. split; [reflexivity|]. split.
  - apply (A [("files", [("sources", PyTuple ["a.txt"])])] "srcs" (PyList ["a.txt"]) Sources).
    + reflexivity.
    + simpl. auto.
    + simpl. auto.
    + reflexivity.
  - assert (Hno : forall field_type,
               In field_type (class_field_types FilesTarget (union_membership files_engine)) ->
               "bogus" <> field_alias field_type
               /\ deprecated_alias field_type <> Some "bogus").
    { intros ft Hin. simpl in Hin.
      destruct Hin as [<-|[<-|[]]]; split; discriminate. }
    destruct (B "bogus" Hno) as [B1 B2]. split; [exact B1|].
    apply (B2 [("files", [("sources", PyTuple ["a.txt"])])]); reflexivity.
Defined.

(** ** The further theorems at the scenarios *)

Ltac distinct_keys :=
  unfold well_formed; simpl; repeat constructor; simpl; intuition discriminate.

Lemma set_defaults_leaves_no_empty_mapping_witness :
  (false = true -> well_formed root_tag_engine)
  /\ set_defaults [only_description] None false [] root_tag_engine
     = (inr tt, snd (set_defaults [only_description] None false [] root_tag_engine))
  /\ (mem "test_type_2" (named_kinds (call_merges root_tag_engine [only_description] None))
      = true \/ false = true)
  /\ get (defaults (snd (set_defaults [only_description] None false [] root_tag_engine)))
         "test_type_2"
     = Some [("description", PyStr "only desc default")]
  /\ [("description", PyStr "only desc default")] <> [].
Proof.
  assert (Hwf : false = true -> well_formed root_tag_engine) by discriminate.
  split; [exact Hwf|]. split; [reflexivity|]. split; [left; reflexivity|].
  split; [reflexivity|].
  apply (set_defaults_leaves_no_empty_mapping root_tag_engine [only_description] None
           false [] _ "test_type_2" _ Hwf eq_refl (or_introl eq_refl) eq_refl).
Defined.

Lemma extend_without_directives_witness :
  well_formed tagged_engine
  /\ exists self',
       set_defaults [] None true [] tagged_engine = (inr tt, self')
       /\ (forall kind,
             get (defaults self') kind =
             match get (defaults tagged_engine) kind with
             | Some m => if is_empty m then None else Some m
             | None => None
             end)
       /\ ((forall kind m, get (defaults tagged_engine) kind = Some m -> m <> []) ->
           self' = tagged_engine).
Proof.
  assert (Hwf : well_formed tagged_engine) by distinct_keys.
  split; [exact Hwf|]. apply (extend_without_directives tagged_engine [] Hwf).
Defined.

Lemma extend_merges_named_kinds_witness :
  well_formed root_tag_engine
  /\ set_defaults [only_description] None true [] root_tag_engine
     = (inr tt, snd (set_defaults [only_description] None true [] root_tag_engine))
  /\ defaults_for (snd (set_defaults [only_description] None true [] root_tag_engine))
                  "test_type_2"
     = [("tags", PyTuple ["root-tag"]); ("description", PyStr "only desc default")]
  /\ get (defaults (snd (set_defaults [only_description] None true [] root_tag_engine)))
         "target"
     = Some [("tags", PyTuple ["root-tag"])].
Proof.
  assert (Hwf : well_formed root_tag_engine) by distinct_keys.
  split; [exact Hwf|]. split; [reflexivity|].
  pose proof (extend_merges_named_kinds root_tag_engine [only_description] None []
                (snd (set_defaults [only_description] None true [] root_tag_engine))
                Hwf eq_refl) as T.
  split.
  - destruct (T "test_type_2") as [N _]. destruct (N eq_refl) as [E _].
    exact (eq_trans E eq_refl).
  - destruct (T "target") as [_ U]. exact (eq_trans (U eq_refl) eq_refl).
Defined.

Lemma later_directive_wins_witness :
  (false = true -> well_formed root)
  /\ set_defaults ([tags_y_for_test_type_1] ++ [tags_z_for_test_type_1])
                  (Some (IsDict tags_x)) false [] root
     = (inr tt,
        snd (set_defaults ([tags_y_for_test_type_1] ++ [tags_z_for_test_type_1])
                          (Some (IsDict tags_x)) false [] root))
  /\ last_binding (given_fields (explicit_merges root [tags_z_for_test_type_1])
                                "test_type_1") "tags"
     = Some (PyList ["z"])
  /\ get (defaults_for
            (snd (set_defaults ([tags_y_for_test_type_1] ++ [tags_z_for_test_type_1])
                               (Some (IsDict tags_x)) false [] root))
            "test_type_1") "tags"
     = Some (PyList ["z"]).
Proof.
  assert (Hwf : false = true -> well_formed root) by discriminate.
  split; [exact Hwf|]. split; [reflexivity|]. split; [reflexivity|].
  apply (later_directive_wins root [tags_y_for_test_type_1] [tags_z_for_test_type_1]
           (Some (IsDict tags_x)) false [] _ "test_type_1" "tags" (PyList ["z"])
           Hwf eq_refl eq_refl).
Defined.

Lemma set_defaults_twice_witness :
  set_defaults [only_description] None false [] root_tag_engine
  = (inr tt, snd (set_defaults [only_description] None false [] root_tag_engine))
  /\ set_defaults [only_description] None false []
       (snd (set_defaults [only_description] None false [] root_tag_engine))
     = (inr tt, snd (set_defaults [only_description] None false [] root_tag_engine)).
Proof.
  split; [reflexivity|].
  apply (set_defaults_twice root_tag_engine [only_description] None [] _ eq_refl).
Defined.

Lemma set_defaults_exceptions_witness :
  set_defaults [unknown_target] None false [] tagged_engine
  = (inl (ValueError (unrecognized_target_msg tagged_engine "unknown_target")),
     tagged_engine)
  /\ ((exists o, In (NotDict o) [unknown_target]
                 /\ ValueError (unrecognized_target_msg tagged_engine "unknown_target")
                    = ValueError (expected_dict_msg tagged_engine o))
      \/ (exists key o,
            In (key, NotDict o) (call_items tagged_engine [unknown_target] None)
            /\ ValueError (unrecognized_target_msg tagged_engine "unknown_target")
               = ValueError (invalid_values_msg tagged_engine key o))
      \/ (exists key fields target_alias,
            In (key, IsDict fields) (call_items tagged_engine [unknown_target] None)
            /\ In target_alias (key_targets key)
            /\ get (aliases_to_types (registered_target_types tagged_engine)) target_alias
               = None
            /\ ValueError (unrecognized_target_msg tagged_engine "unknown_target")
               = ValueError (unrecognized_target_msg tagged_engine target_alias))
      \/ (exists key fields target_alias target_type fa,
            In (key, IsDict fields) (call_items tagged_engine [unknown_target] None)
            /\ In target_alias (key_targets key)
            /\ get (aliases_to_types (registered_target_types tagged_engine)) target_alias
               = Some target_type
            /\ In fa (keys fields)
            /\ mem fa (valid_field_aliases_of tagged_engine target_type) = false
            /\ ValueError (unrecognized_target_msg tagged_engine "unknown_target")
               = InvalidFieldException
                   (unrecognized_field_msg fa target_type
                      (valid_field_aliases_of tagged_engine target_type)))).
Proof.
  split; [reflexivity|].
  apply (set_defaults_exceptions tagged_engine [unknown_target] None false []
           (ValueError (unrecognized_target_msg tagged_engine "unknown_target"))
           tagged_engine eq_refl).
Defined.

Lemma positional_not_a_mapping_witness :
  (exists e, set_defaults [bad_type] None false [] root = (inl e, root))
  /\ set_defaults [] None false [] root = (inr tt, root)
  /\ set_defaults ([] ++ NotDict (PyList ["bad type"]) :: []) None false [] root
     = (inl (ValueError
               ("Expected dictionary mapping targets to default field values for "
                ++ address_str (address root) ++ " but got: "
                ++ type_name (PyList ["bad type"]) ++ ".")),
        root).
Proof.
  destruct (positional_not_a_mapping root (PyList ["bad type"]) false []) as [A B].
  split; [|split; [reflexivity|]].
  - apply (A [bad_type] None). simpl. auto.
  - apply (B [] [] None root). reflexivity.
Defined.

Lemma value_not_a_mapping_witness :
  (exists e,
     set_defaults [IsDict [(KStr "test_type_1", NotDict (PyTuple []))]] None false [] root
     = (inl e, root))
  /\ set_defaults ([] ++ [IsDict []]) None false [] root = (inr tt, root)
  /\ set_defaults
       ([] ++ IsDict ([] ++ (KStr "test_type_1", NotDict (PyTuple [])) :: []) :: [])
       None false [] root
     = (inl (ValueError
               ("Invalid default field values in " ++ address_str (address root)
                ++ " for target type " ++ key_str (KStr "test_type_1") ++ ", "
                ++ "must be an `dict` but was " ++ repr (PyTuple [])
                ++ " with type `" ++ type_name (PyTuple []) ++ "`.")),
        root).
Proof.
  destruct (value_not_a_mapping root (KStr "test_type_1") (PyTuple []) false [])
    as [A B].
  split; [|split; [reflexivity|]].
  - eapply A; [left; reflexivity | left; reflexivity].
  - apply (B [] [] [] [] None root). reflexivity.
Defined.

Lemma extend_calls_compose_witness :
  well_formed root
  /\ set_defaults [tags_y_for_test_type_1] (Some (IsDict tags_x)) true [] root
     = (inr tt,
        snd (set_defaults [tags_y_for_test_type_1] (Some (IsDict tags_x)) true [] root))
  /\ set_defaults [only_description] None true []
       (snd (set_defaults [tags_y_for_test_type_1] (Some (IsDict tags_x)) true [] root))
     = (inr tt,
        snd (set_defaults [only_description] None true []
               (snd (set_defaults [tags_y_for_test_type_1] (Some (IsDict tags_x))
                       true [] root))))
  /\ exists self12,
       set_defaults ([tags_y_for_test_type_1] ++ [only_description])
                    (Some (IsDict tags_x)) true [] root
       = (inr tt, self12)
       /\ forall kind,
            get (defaults self12) kind
            = get (defaults
                     (snd (set_defaults [only_description] None true []
                             (snd (set_defaults [tags_y_for_test_type_1]
                                     (Some (IsDict tags_x)) true [] root)))))
                  kind.
Proof.
  assert (Hwf : well_formed root) by distinct_keys.
  split; [exact Hwf|]. split; [reflexivity|]. split; [reflexivity|].
  apply (extend_calls_compose root [tags_y_for_test_type_1] [only_description]
           (Some (IsDict tags_x)) []
           (snd (set_defaults [tags_y_for_test_type_1] (Some (IsDict tags_x)) true [] root))
           (snd (set_defaults [only_description] None true []
                   (snd (set_defaults [tags_y_for_test_type_1] (Some (IsDict tags_x))
                           true [] root))))
           Hwf eq_refl eq_refl).
Defined.

Lemma frozen_entries_are_coerced_witness :
  fst (get_frozen_defaults files_engine)
    = inr [("files", [("sources", PyTuple ["a.txt"])])]
  /\ get [("files", [("sources", PyTuple ["a.txt"])])] "files"
     = Some [("sources", PyTuple ["a.txt"])]
  /\ get [("sources", PyTuple ["a.txt"])] "sources" = Some (PyTuple ["a.txt"])
  /\ exists fields target_type,
       get (defaults files_engine) "files" = Some fields
       /\ get (aliases_to_types (registered_target_types files_engine)) "files"
          = Some target_type
       /\ emitted files_engine
                  (class_field_types target_type (union_membership files_engine))
                  fields "sources" (PyTuple ["a.txt"]).
Proof.
  split; [reflexivity|]. split; [reflexivity|]. split; [reflexivity|].
  apply (frozen_entries_are_coerced files_engine
           [("files", [("sources", PyTuple ["a.txt"])])] "files"
           [("sources", PyTuple ["a.txt"])] "sources" (PyTuple ["a.txt"])
           eq_refl eq_refl eq_refl).
Defined.

Lemma freeze_unregistered_kind_witness :
  get (aliases_to_types (registered_target_types orphan_engine)) "gone" = None
  /\ (exists e, fst (get_frozen_defaults orphan_engine) = inl e)
  /\ fst (get_frozen_defaults orphan_engine) = inl (KeyError "gone")
  /\ fst (get_frozen_defaults orphan_empty_engine)
     = inr ([("target", [("tags", PyTuple ["t"])])] ++ ("gone", []) :: []).
Proof.
  destruct (freeze_unregistered_kind orphan_engine "gone" eq_refl) as [A [B _]].
  destruct (freeze_unregistered_kind orphan_empty_engine "gone" eq_refl) as [_ [_ C]].
  split; [reflexivity|]. split; [|split].
  - apply (A [("tags", PyTuple ["x"])]); [simpl; auto | discriminate].
  - apply (B [("target", [("tags", PyTuple ["t"])])] [("tags", PyTuple ["x"])] []
             [("target", [("tags", PyTuple ["t"])])]);
      [reflexivity | discriminate | reflexivity].
  - apply (C [("target", [("tags", PyTuple ["t"])])] []
             [("target", [("tags", PyTuple ["t"])])] []); reflexivity.
Defined.

Lemma freeze_coercion_failure_witness :
  get (defaults bad_tags_engine) "test_type_1" = Some [("tags", PyStr "foo-bar")]
  /\ get (aliases_to_types (registered_target_types bad_tags_engine)) "test_type_1"
     = Some Test1Target
  /\ In ("tags", PyStr "foo-bar") [("tags", PyStr "foo-bar")]
  /\ In Tags (class_field_types Test1Target (union_membership bad_tags_engine))
  /\ names_field Tags "tags" = true
  /\ compute_value Tags (PyStr "foo-bar") (address bad_tags_engine)
     = inl (invalid_field_type "tags" ("src/proj/a", "__defaults__") (PyStr "foo-bar")
              "an iterable of strings (e.g. a list of strings)")
  /\ exists e', fst (get_frozen_defaults bad_tags_engine) = inl e'.
Proof.
  assert (H3 : In ("tags", PyStr "foo-bar") [("tags", PyStr "foo-bar")])
    by (left; reflexivity).
  assert (H4 : In Tags (class_field_types Test1Target (union_membership bad_tags_engine)))
    by (left; reflexivity).
  split; [reflexivity|]. split; [reflexivity|]. split; [exact H3|].
  split; [exact H4|]. split; [reflexivity|]. split; [reflexivity|].
  apply (freeze_coercion_failure bad_tags_engine "test_type_1" Test1Target
           [("tags", PyStr "foo-bar")] "tags" (PyStr "foo-bar") Tags
           (invalid_field_type "tags" ("src/proj/a", "__defaults__") (PyStr "foo-bar")
              "an iterable of strings (e.g. a list of strings)")
           eq_refl eq_refl H3 H4 eq_refl eq_refl).
Defined.

Lemma renamed_fields_sole :
  Forall2 (fun item o =>
             sole_coercion renamed_engine
               (class_field_types FilesTarget (union_membership renamed_engine))
               (fst item) (snd item) (fst o) (snd o))
          renamed_fields
          [("sources", PyTuple ["a.txt"]); ("tags", PyTuple ["t"])].
Proof.
  repeat constructor.
  - exists [Tags], Sources, []. simpl. repeat split.
    intros o [<-|[]]. reflexivity.
  - exists [], Tags, [Sources]. simpl. repeat split.
    intros o [<-|[]]. reflexivity.
Defined.

Lemma freeze_exact_witness :
  get (defaults renamed_engine) "files" = Some renamed_fields
  /\ get (aliases_to_types (registered_target_types renamed_engine)) "files"
     = Some FilesTarget
  /\ fst (get_frozen_defaults renamed_engine)
     = inr [("files", [("sources", PyTuple ["a.txt"]); ("tags", PyTuple ["t"])])]
  /\ get [("files", [("sources", PyTuple ["a.txt"]); ("tags", PyTuple ["t"])])] "files"
     = Some (update [] [("sources", PyTuple ["a.txt"]); ("tags", PyTuple ["t"])]).
Proof.
  split; [reflexivity|]. split; [reflexivity|]. split; [reflexivity|].
  apply (freeze_exact renamed_engine "files" FilesTarget renamed_fields
           [("sources", PyTuple ["a.txt"]); ("tags", PyTuple ["t"])]
           [("files", [("sources", PyTuple ["a.txt"]); ("tags", PyTuple ["t"])])]
           eq_refl eq_refl renamed_fields_sole eq_refl).
Defined.

Lemma tagged_parent_coerced kind fields :
  In (kind, fields) tagged_parent ->
  NoDup (keys fields)
  /\ exists target_type,
       get (aliases_to_types registered_types) kind = Some target_type
       /\ forall fa v,
            In (fa, v) fields ->
            sole_coercion (create "src/proj/a" tagged_parent registered_types tt)
                          (class_field_types target_type tt) fa v fa v.
Proof.
  intros [E|[]]. injection E as <- <-. split.
  - repeat constructor. simpl. tauto.
  - exists Test1Target. split; [reflexivity|].
    intros fa v [E|[]]. injection E as <- <-.
    exists [], Tags, [DescriptionField; Dependencies]. simpl. repeat split.
    intros o [<-|[<-|[]]]; reflexivity.
Defined.

Lemma inherit_unchanged_witness :
  (forall kind fields,
     In (kind, fields) tagged_parent ->
     NoDup (keys fields)
     /\ exists target_type,
          get (aliases_to_types registered_types) kind = Some target_type
          /\ forall fa v,
               In (fa, v) fields ->
               sole_coercion (create "src/proj/a" tagged_parent registered_types tt)
                             (class_field_types target_type tt) fa v fa v)
  /\ fst (get_frozen_defaults (create "src/proj/a" tagged_parent registered_types tt))
     = inr tagged_parent.
Proof.
  split; [exact tagged_parent_coerced|].
  apply (inherit_unchanged "src/proj/a" tagged_parent registered_types tt
           tagged_parent_coerced).
Defined.

Lemma set_then_get_witness :
  get (aliases_to_types (registered_target_types root)) "test_type_1" = Some Test1Target
  /\ (forall fa, In fa (keys [("tags", PyList ["y"])]) ->
                 mem fa (valid_field_aliases_of root Test1Target) = true)
  /\ NoDup (keys [("tags", PyList ["y"])])
  /\ exists self',
       set_defaults [IsDict [(KStr "test_type_1", IsDict [("tags", PyList ["y"])])]]
                    None false [] root
       = (inr tt, self')
       /\ get_defaults (alias Test1Target) self' = (inr [("tags", PyList ["y"])], self').
Proof.
  assert (Hv : forall fa, In fa (keys [("tags", PyList ["y"])]) ->
                          mem fa (valid_field_aliases_of root Test1Target) = true)
    by (intros fa [<-|[]]; reflexivity).
  assert (Hnd : NoDup (keys [("tags", PyList ["y"])]))
    by (repeat constructor; simpl; tauto).
  split; [reflexivity|]. split; [exact Hv|]. split; [exact Hnd|].
  apply (set_then_get root "test_type_1" Test1Target [("tags", PyList ["y"])] []
           eq_refl Hv Hnd).
Defined.

Lemma foo_bar_applies_nowhere fa target_alias target_type :
  In fa (keys [("foo_bar", PyStr "ignored")]) ->
  In (target_alias, target_type)
     (aliases_to_types (registered_target_types foo_bar_engine)) ->
  mem fa (valid_field_aliases_of foo_bar_engine target_type) = false.
Proof.
  intros [<-|[]] Hin. simpl in Hin.
  destruct Hin as [E|[E|[E|[]]]]; injection E as <- <-; reflexivity.
Defined.

Lemma all_without_applicable_fields_witness :
  (forall fa target_alias target_type,
     In fa (keys [("foo_bar", PyStr "ignored")]) ->
     In (target_alias, target_type)
        (aliases_to_types (registered_target_types foo_bar_engine)) ->
     mem fa (valid_field_aliases_of foo_bar_engine target_type) = false)
  /\ exists self',
       set_defaults [] (Some (IsDict [("foo_bar", PyStr "ignored")])) false []
                    foo_bar_engine
       = (inr tt, self')
       /\ (forall target_alias target_type,
             get (aliases_to_types (registered_target_types foo_bar_engine)) target_alias
               = Some target_type ->
             get (defaults self') (alias target_type) = None)
       /\ (forall kind,
             (forall target_alias target_type,
                In (target_alias, target_type)
                   (aliases_to_types (registered_target_types foo_bar_engine)) ->
                alias target_type <> kind) ->
             get (defaults self') kind = get (defaults foo_bar_engine) kind).
Proof.
  split; [exact foo_bar_applies_nowhere|].
  apply (all_without_applicable_fields foo_bar_engine [("foo_bar", PyStr "ignored")] []
           foo_bar_applies_nowhere).
Defined.

Lemma root_stored_valid : stored_valid root.
Proof. intros kind fields fa H. discriminate H. Defined.

Lemma set_defaults_keeps_stored_valid_witness :
  (false = true -> well_formed root)
  /\ stored_valid root
  /\ set_defaults [tags_y_for_test_type_1] None false [] root
     = (inr tt, snd (set_defaults [tags_y_for_test_type_1] None false [] root))
  /\ stored_valid (snd (set_defaults [tags_y_for_test_type_1] None false [] root))
  /\ registered_target_types (snd (set_defaults [tags_y_for_test_type_1] None false [] root))
     = registered_target_types root
  /\ union_membership (snd (set_defaults [tags_y_for_test_type_1] None false [] root))
     = union_membership root
  /\ address (snd (set_defaults [tags_y_for_test_type_1] None false [] root))
     = address root.
Proof.
  assert (Hwf : false = true -> well_formed root) by discriminate.
  split; [exact Hwf|]. split; [exact root_stored_valid|]. split; [reflexivity|].
  apply (set_defaults_keeps_stored_valid root [tags_y_for_test_type_1] None false []
           (snd (set_defaults [tags_y_for_test_type_1] None false [] root))
           Hwf root_stored_valid eq_refl).
Defined.

Lemma tags_applies_everywhere fa target_alias target_type :
  In fa (keys tags_x) ->
  get (aliases_to_types (registered_target_types root)) target_alias = Some target_type ->
  mem fa (valid_field_aliases_of root target_type) = true.
Proof.
  intros [<-|[]] Hk. apply get_Some_In in Hk. simpl in Hk.
  destruct Hk as [E|[E|[E|[]]]]; injection E as <- <-; reflexivity.
Defined.

Lemma all_as_directive_witness :
  (forall fa target_alias target_type,
     In fa (keys tags_x) ->
     get (aliases_to_types (registered_target_types root)) target_alias
       = Some target_type ->
     mem fa (valid_field_aliases_of root target_type) = true)
  /\ set_defaults [tags_y_for_test_type_1] (Some (IsDict tags_x)) false [] root
     = set_defaults
         (IsDict [(KTuple (aliases (registered_target_types root)), IsDict tags_x)]
            :: [tags_y_for_test_type_1])
         None false [] root.
Proof.
  split; [exact tags_applies_everywhere|].
  apply (all_as_directive root [tags_y_for_test_type_1] tags_x false []
           tags_applies_everywhere).
Defined.
